(** * Email_Analyzer: the entity normaliser of [data_normalizer.py]

    A shallow embedding of the [Normalizer] class and of its three
    subclasses ([CompanyNormalizer], [CategoryNormalizer],
    [TemplateNormalizer]), together with the properties of the
    resolution engine, the validators and the mapping store.

    Conventions of the model.
    - A Python [str] is a [string]; a character is a code point below 256
      (the Latin-1 range), on which [str.lower], [str.strip], [str.split]
      and the [re] module are modelled exactly.
    - A similarity score is a rational.  [SequenceMatcher.ratio] returns
      the float nearest to [2*M/T], and a threshold written [q] here stands
      for the float nearest to [q] (0.9 for 9/10, 0.7 for 7/10).  Rounding
      is monotone and two distinct fractions with denominators of realistic
      size never round to the same float, so the float comparisons of the
      source agree with the rational ones made here.
    - [self.mappings] is a [gmap string string], [self.standardized_entities]
      a [gset string], [self.pending_review] a [gmap string Review].
    - [print] calls are left out, except in [save_mappings], where the
      message is the only trace of a failure. *)

From Stdlib Require Import Ascii String NArith QArith.
From stdpp Require Import gmap strings list fin_maps sorting.

Local Open Scope string_scope.

(** ** Python strings *)

Module PyStr.

Definition code (c : ascii) : N := N_of_ascii c.

Definition in_range (lo hi : N) (c : ascii) : bool :=
  (lo <=? code c)%N && (code c <=? hi)%N.

(** [str.isspace] on one character: TAB..CR, FS..US, SPACE, NEL, NBSP. *)
Definition isspace (c : ascii) : bool :=
  in_range 9 13 c || in_range 28 32 c || (code c =? 133)%N || (code c =? 160)%N.

(** Characters that have a lowercase partner: A-Z and the Latin-1
    capitals (all of 192..222 except the multiplication sign 215). *)
Definition is_upper (c : ascii) : bool :=
  in_range 65 90 c || (in_range 192 222 c && negb (code c =? 215)%N).

(** Characters whose uppercase partner is again below 256: a-z and
    224..254 except the division sign 247. *)
Definition is_lower (c : ascii) : bool :=
  in_range 97 122 c || (in_range 224 254 c && negb (code c =? 247)%N).

Definition lower_char (c : ascii) : ascii :=
  if is_upper c then ascii_of_N (code c + 32) else c.

Definition upper_char (c : ascii) : ascii :=
  if is_lower c then ascii_of_N (code c - 32) else c.

(** [s.lower()] *)
Fixpoint lower (s : string) : string :=
  match s with
  | EmptyString => EmptyString
  | String c s' => String (lower_char c) (lower s')
  end.

(** [s.lstrip()] *)
Fixpoint lstrip (s : string) : string :=
  match s with
  | EmptyString => EmptyString
  | String c s' => if isspace c then lstrip s' else s
  end.

(** [s.rstrip()]: a character is dropped when it is a space and all that
    follows it has been dropped. *)
Fixpoint rstrip (s : string) : string :=
  match s with
  | EmptyString => EmptyString
  | String c s' =>
      match rstrip s' with
      | EmptyString => if isspace c then EmptyString else String c EmptyString
      | r => String c r
      end
  end.

(** [s.strip()] *)
Definition strip (s : string) : string := rstrip (lstrip s).

(** [len(s.split())]: the number of maximal runs of non-space characters.
    [inword] tells whether the previous character belonged to a word. *)
Fixpoint count_words (inword : bool) (s : string) : nat :=
  match s with
  | EmptyString => 0
  | String c s' =>
      if isspace c then count_words false s'
      else if inword then count_words true s'
      else S (count_words true s')
  end.

(** [needle in s] for strings: [needle] occurs as a substring. *)
Fixpoint contains (needle s : string) : bool :=
  String.prefix needle s ||
  match s with
  | EmptyString => false
  | String _ s' => contains needle s'
  end.

(** [s.isspace()]: at least one character, and only whitespace. *)
Fixpoint all_space (s : string) : bool :=
  match s with
  | EmptyString => true
  | String c s' => isspace c && all_space s'
  end.

Definition whitespace_only (s : string) : Prop :=
  s <> EmptyString /\ all_space s = true.

End PyStr.

(** ** The fragment of Python's [re] that the normaliser uses *)

Module Re.
Import PyStr.

(** Patterns.  Repetition is only ever applied to a character class in the
    source ([[0-9]+], [[0-9a-f]{8}], [\s+], [[a-zA-Z]{2,}]); an optional
    literal such as [\.?] is [Alt (Chr ".") Eps]. *)
Inductive regex : Type :=
| Eps
| Chr (c : ascii)
| Cls (p : ascii -> bool)
| Bol
| Eol
| Seq (r1 r2 : regex)
| Alt (r1 r2 : regex)
| Rep (lo : nat) (hi : option nat) (p : ascii -> bool).

(** One literal character.  Under [re.IGNORECASE] the pattern character and
    the subject character are compared after lowercasing. *)
Definition chr_match (ic : bool) (c d : ascii) : bool :=
  if ic then Ascii.eqb (lower_char c) (lower_char d) else Ascii.eqb c d.

(** One character against a class.  Under [re.IGNORECASE] the character
    matches when one of its case variants is in the class. *)
Definition cls_match (ic : bool) (p : ascii -> bool) (d : ascii) : bool :=
  if ic then p d || p (lower_char d) || p (upper_char d) else p d.

Definition more_allowed (hi : option nat) : bool :=
  match hi with Some 0 => false | _ => true end.

Definition dec_bound (hi : option nat) : option nat :=
  match hi with Some n => Some (Nat.pred n) | None => None end.

(** Greedy bounded repetition of a class, with backtracking: take one more
    character when allowed, and fall back to the continuation when the
    longer attempt fails. *)
Fixpoint rep_match (ic : bool) (p : ascii -> bool) (lo : nat) (hi : option nat)
    (bol : bool) (s : string) (k : bool -> string -> option string) : option string :=
  let stop := if Nat.eqb lo 0 then k bol s else None in
  match s with
  | EmptyString => stop
  | String d s' =>
      if more_allowed hi && cls_match ic p d then
        match rep_match ic p (Nat.pred lo) (dec_bound hi) false s' k with
        | Some rest => Some rest
        | None => stop
        end
      else stop
  end.

(** Backtracking matcher in continuation-passing style.  [bol] tells
    whether the current position is the start of the subject; the result is
    the part of the subject that follows the match.  Alternatives are tried
    from left to right, as [re] does. *)
Fixpoint rmatch (ic : bool) (r : regex) (bol : bool) (s : string)
    (k : bool -> string -> option string) : option string :=
  match r with
  | Eps => k bol s
  | Chr c =>
      match s with
      | String d s' => if chr_match ic c d then k false s' else None
      | EmptyString => None
      end
  | Cls p =>
      match s with
      | String d s' => if cls_match ic p d then k false s' else None
      | EmptyString => None
      end
  | Bol => if bol then k bol s else None
  | Eol =>
      match s with
      | EmptyString => k bol s
      | String d EmptyString => if (code d =? 10)%N then k bol s else None
      | _ => None
      end
  | Seq r1 r2 => rmatch ic r1 bol s (fun b s' => rmatch ic r2 b s' k)
  | Alt r1 r2 =>
      match rmatch ic r1 bol s k with
      | Some rest => Some rest
      | None => rmatch ic r2 bol s k
      end
  | Rep lo hi p => rep_match ic p lo hi bol s k
  end.

(** A match attempt at the current position. *)
Definition match_here (ic : bool) (r : regex) (bol : bool) (s : string) : option string :=
  rmatch ic r bol s (fun _ rest => Some rest).

(** [re.match(r, s)]: a match at position 0. *)
Definition re_match (ic : bool) (r : regex) (s : string) : bool :=
  bool_decide (is_Some (match_here ic r true s)).

(** [re.search(r, s)]: a match at some position, scanning left to right. *)
Fixpoint search_from (ic : bool) (r : regex) (bol : bool) (s : string) : bool :=
  match match_here ic r bol s with
  | Some _ => true
  | None =>
      match s with
      | EmptyString => false
      | String _ s' => search_from ic r false s'
      end
  end.

Definition re_search (ic : bool) (r : regex) (s : string) : bool :=
  search_from ic r true s.

(** [re.sub(r, '', s)]: every non-overlapping match, leftmost first, is
    deleted.  An empty match deletes nothing and the scan moves on by one
    character. *)
Fixpoint sub_from (fuel : nat) (ic : bool) (r : regex) (bol : bool) (s : string) : string :=
  match fuel with
  | 0 => s
  | S fuel' =>
      let skip :=
        match s with
        | EmptyString => EmptyString
        | String c s' => String c (sub_from fuel' ic r false s')
        end in
      match match_here ic r bol s with
      | Some rest =>
          if (String.length rest <? String.length s)%nat
          then sub_from fuel' ic r false rest
          else skip
      | None => skip
      end
  end.

Definition re_sub_delete (ic : bool) (r : regex) (s : string) : string :=
  sub_from (S (String.length s)) ic r true s.

(** A literal word, character by character. *)
Fixpoint lit (w : string) : regex :=
  match w with
  | EmptyString => Eps
  | String c w' => Seq (Chr c) (lit w')
  end.

(** [w1|w2|...] *)
Fixpoint alt_of (ws : list regex) : regex :=
  match ws with
  | [] => Cls (fun _ => false)
  | [r] => r
  | r :: rs => Alt r (alt_of rs)
  end.

Definition plus (p : ascii -> bool) : regex := Rep 1 None p.
Definition exactly (n : nat) (p : ascii -> bool) : regex := Rep n (Some n) p.
Definition at_least (n : nat) (p : ascii -> bool) : regex := Rep n None p.
Definition opt (r : regex) : regex := Alt r Eps.

(** Character classes of the source's patterns. *)
Definition digit (c : ascii) : bool := in_range 48 57 c.
Definition hex_lower (c : ascii) : bool := digit c || in_range 97 102 c.
Definition digit_dot_dash (c : ascii) : bool :=
  digit c || (code c =? 46)%N || (code c =? 45)%N.
Definition alpha (c : ascii) : bool := in_range 97 122 c || in_range 65 90 c.
Definition alnum (c : ascii) : bool := alpha c || digit c.

End Re.

(** ** [difflib.SequenceMatcher(None, a, b).ratio()]

    The standard library's block-matching score, as the normaliser calls it:
    no junk predicate, [autojunk] left at its default.  Sequences are lists
    of characters indexed from 0. *)

Module Difflib.

Definition at_index (l : list ascii) (i : nat) : ascii := List.nth i l Ascii.zero.

Definition occurrences (c : ascii) (b : list ascii) : nat :=
  length (List.filter (Ascii.eqb c) b).

(** [__chain_b]: when [b] has at least 200 elements, the elements that occur
    more than [n // 100 + 1] times lose their entry in [b2j]. *)
Definition popular (b : list ascii) (c : ascii) : bool :=
  let n := length b in
  (200 <=? n)%nat && (n / 100 + 1 <? occurrences c b)%nat.

(** [j2len.get(j-1, 0)] *)
Definition j2len_get (j2len : list (nat * nat)) (j : nat) : nat :=
  match j with
  | 0 => 0
  | S j' =>
      match List.find (fun p => (fst p =? j')%nat) j2len with
      | Some p => snd p
      | None => 0
      end
  end.

Definition Match : Type := (nat * nat * nat)%type.
Definition size_of (m : Match) : nat := snd m.

(** The inner loop of [find_longest_match] for one [i]: every [j] of
    [b2j[a[i]]] within [blo, bhi), in increasing order. *)
Definition scan_row (a b : list ascii) (blo bhi i : nat)
    (acc : Match * list (nat * nat)) : Match * list (nat * nat) :=
  let j2len := snd acc in
  let ai := at_index a i in
  List.fold_left
    (fun (st : Match * list (nat * nat)) (j : nat) =>
       if Ascii.eqb (at_index b j) ai && negb (popular b ai) then
         let k := j2len_get j2len j + 1 in
         (if (size_of (fst st) <? k)%nat then (i + 1 - k, j + 1 - k, k) else fst st,
          (j, k) :: snd st)
       else st)
    (List.seq blo (bhi - blo)) (fst acc, []).

(** The two extension loops that follow the scan (the junk-only loops never
    run, the junk set being empty). *)
Fixpoint extend_left (fuel : nat) (a b : list ascii) (alo blo : nat) (m : Match) : Match :=
  match fuel with
  | 0 => m
  | S fuel' =>
      let '(i, j, k) := m in
      if (alo <? i)%nat && (blo <? j)%nat
         && Ascii.eqb (at_index a (i - 1)) (at_index b (j - 1))
      then extend_left fuel' a b alo blo (i - 1, j - 1, k + 1)
      else m
  end.

Fixpoint extend_right (fuel : nat) (a b : list ascii) (ahi bhi : nat) (m : Match) : Match :=
  match fuel with
  | 0 => m
  | S fuel' =>
      let '(i, j, k) := m in
      if (i + k <? ahi)%nat && (j + k <? bhi)%nat
         && Ascii.eqb (at_index a (i + k)) (at_index b (j + k))
      then extend_right fuel' a b ahi bhi (i, j, k + 1)
      else m
  end.

Definition find_longest_match (a b : list ascii) (alo ahi blo bhi : nat) : Match :=
  let scanned :=
    fst (List.fold_left (fun acc i => scan_row a b blo bhi i acc)
           (List.seq alo (ahi - alo)) ((alo, blo, 0), [])) in
  extend_right (length a) a b ahi bhi
    (extend_left (length a) a b alo blo scanned).

(** [get_matching_blocks], summed: the longest block, then the blocks to
    its left and to its right. *)
Fixpoint matched (fuel : nat) (a b : list ascii) (alo ahi blo bhi : nat) : nat :=
  match fuel with
  | 0 => 0
  | S fuel' =>
      let '(i, j, k) := find_longest_match a b alo ahi blo bhi in
      if (k =? 0)%nat then 0
      else
        k
        + (if (alo <? i)%nat && (blo <? j)%nat
           then matched fuel' a b alo i blo j else 0)
        + (if (i + k <? ahi)%nat && (j + k <? bhi)%nat
           then matched fuel' a b (i + k) ahi (j + k) bhi else 0)
  end.

(** [_calculate_ratio(matches, len(a) + len(b))] *)
Definition ratio (sa sb : string) : Q :=
  let a := list_ascii_of_string sa in
  let b := list_ascii_of_string sb in
  let total := (length a + length b)%nat in
  if (total =? 0)%nat then 1%Q
  else Qmake (Z.of_nat (2 * matched (S (length a)) a b 0 (length a) 0 (length b)))
             (Pos.of_nat total).

End Difflib.

(** ** The normaliser *)

Import PyStr Re.

(** [DEFAULT_AUTO_THRESHOLD] and [DEFAULT_SUGGEST_THRESHOLD] *)
Definition DEFAULT_AUTO_THRESHOLD : Q := 9 # 10.
Definition DEFAULT_SUGGEST_THRESHOLD : Q := 7 # 10.

(** [score > best_score] and [score >= threshold] on rationals. *)
Definition Qgt_bool (x y : Q) : bool := negb (Qle_bool x y).
Definition Qge_bool (x y : Q) : bool := Qle_bool y x.

(** The class of a normaliser object: the base class and its three
    subclasses. *)
Inductive EntityClass : Type := Generic | Company | Category | Template.

(** An entry of [pending_review]: [{'suggested': ..., 'score': ...}]. *)
Record Review : Type := mkReview { suggested : string; score : Q }.

(** The fields of a [Normalizer] object that the operations read or write. *)
Record Normalizer : Type := mkNormalizer {
  kind : EntityClass;
  auto_threshold : Q;
  suggest_threshold : Q;
  mappings : gmap string string;
  standardized_entities : gset string;
  pending_review : gmap string Review
}.

Definition with_stores (st : Normalizer) (m : gmap string string)
    (e : gset string) (p : gmap string Review) : Normalizer :=
  {| kind := kind st;
     auto_threshold := auto_threshold st;
     suggest_threshold := suggest_threshold st;
     mappings := m;
     standardized_entities := e;
     pending_review := p |}.

(** The object built by [__init__] when no mapping file exists. *)
Definition new_normalizer (c : EntityClass) (auto suggest : Q) : Normalizer :=
  {| kind := c;
     auto_threshold := auto;
     suggest_threshold := suggest;
     mappings := ∅;
     standardized_entities := ∅;
     pending_review := ∅ |}.

(** [load_mappings]: [doc] is the parsed content of the mapping file,
    [None] when the file is missing or cannot be read. *)
Definition load_mappings (doc : option (gmap string string * list string))
    (st : Normalizer) : Normalizer :=
  match doc with
  | Some (m, l) => with_stores st m (list_to_set l) (pending_review st)
  | None => with_stores st ∅ ∅ (pending_review st)
  end.

(** [Normalizer.__init__]: the fields are set and the stores start empty,
    then [load_mappings] reads the mapping file. *)
Definition construct (c : EntityClass) (auto suggest : Q)
    (doc : option (gmap string string * list string)) : Normalizer :=
  load_mappings doc (new_normalizer c auto suggest).

(** [get_default_entity], as overridden by each subclass. *)
Definition get_default_entity (c : EntityClass) : string :=
  match c with
  | Generic => "Unknown"
  | Company => "Unknown Company"
  | Category => "Other"
  | Template => "Other"
  end.

(** [not entity or entity.lower() in ('n/a', 'unknown', '')] *)
Definition is_default_input (entity : string) : bool :=
  String.eqb entity ""
  || String.eqb (lower entity) "n/a"
  || String.eqb (lower entity) "unknown"
  || String.eqb (lower entity) "".

(** *** [CompanyNormalizer] *)

Definition known_companies : list string :=
  [ "Beacon Communications, LLC";
    "Ben Hur Construction Co.";
    "BluSky Restoration Contractors, LLC";
    "Concrete & Materials Placement";
    "Doggett Concrete Construction";
    "GBI";
    "Gulf Stream Construction Co., Inc.";
    "H&M Mechanical Constructors, Inc.";
    "Haskell Lemon";
    "NP Mechanical, Inc.";
    "S.M. Hentges";
    "TSU One, Inc.";
    "TaftElectric";
    "Moisture Loc";
    "Comtel Systems Technology";
    "Great Basin Industrial";
    "Doggett Residential" ].

Fixpoint seq_of (rs : list regex) : regex :=
  match rs with
  | [] => Eps
  | r :: rs' => Seq r (seq_of rs')
  end.

(** [^[0-9a-f]{8}-[0-9a-f]{4}-[0-9a-f]{4}-[0-9a-f]{4}-[0-9a-f]{12}$] *)
Definition uuid_pattern : regex :=
  seq_of [ Bol; exactly 8 hex_lower; Chr "-"; exactly 4 hex_lower; Chr "-";
           exactly 4 hex_lower; Chr "-"; exactly 4 hex_lower; Chr "-";
           exactly 12 hex_lower; Eol ].

(** [^[0-9]+$] *)
Definition numeric_pattern : regex := seq_of [ Bol; plus digit; Eol ].

(** [^[0-9.-]+$] *)
Definition numeric_dots_pattern : regex := seq_of [ Bol; plus digit_dot_dash; Eol ].

(** [^<] *)
Definition html_pattern : regex := seq_of [ Bol; Chr "<" ].

Definition error_vocabulary : list string :=
  [ "error"; "issue"; "warning"; "incorrect"; "wrong"; "missing"; "invoice";
    "wizard"; "system"; "prediction"; "vendor"; "document" ].

(** [error|issue|warning|...] *)
Definition vocabulary_pattern : regex := alt_of (List.map lit error_vocabulary).

(** The words of the patterns [^The\s], [^There\s], ... in list order. *)
Definition sentence_starters : list string :=
  [ "The"; "There"; "Is"; "We"; "Not"; "This"; "All"; "Due"; "Changed";
    "Data"; "PO"; "SQL"; "SHOULD"; "WIZARD"; "GRANT"; "email"; "invoice";
    "sales"; "the"; "this" ].

(** [^w\s] *)
Definition starter_pattern (w : string) : regex :=
  Seq Bol (Seq (lit w) (Cls isspace)).

Definition exclude_patterns : list regex :=
  [ uuid_pattern; numeric_pattern; numeric_dots_pattern; html_pattern;
    vocabulary_pattern ]
  ++ List.map starter_pattern sentence_starters.

(** The loop [for pattern in self.exclude_patterns:
    if re.search(pattern, entity, re.IGNORECASE): return True]. *)
Definition matches_exclude_pattern (entity : string) : bool :=
  existsb (fun pattern => re_search true pattern entity) exclude_patterns.

(** The part of that loop that runs over the sentence-starter patterns. *)
Definition matches_sentence_starter (entity : string) : bool :=
  existsb (fun pattern => re_search true pattern entity)
    (List.map starter_pattern sentence_starters).

(** [CompanyNormalizer.is_invalid_company] *)
Definition is_invalid_company (entity : string) : bool :=
  if is_default_input entity then true
  else if matches_exclude_pattern entity then true
  else if bool_decide (entity ∈ known_companies) then false
  else if (50 <? String.length entity)%nat then true
  else if (8 <? count_words false entity)%nat then true
  else false.

(** [\s+(Inc\.?|LLC\.?|Ltd\.?|Co\.?|Corp\.?|Corporation|Limited)$] *)
Definition legal_suffix_pattern : regex :=
  seq_of [ plus isspace;
           alt_of [ Seq (lit "Inc") (opt (Chr "."));
                    Seq (lit "LLC") (opt (Chr "."));
                    Seq (lit "Ltd") (opt (Chr "."));
                    Seq (lit "Co") (opt (Chr "."));
                    Seq (lit "Corp") (opt (Chr "."));
                    lit "Corporation";
                    lit "Limited" ];
           Eol ].

(** *** [TemplateNormalizer] *)

Definition valid_keywords : list string :=
  [ "vendor"; "prediction"; "system"; "performance"; "error"; "upload";
    "document"; "integration"; "erp"; "accounting"; "invoice"; "submit";
    "unexpected" ].

Definition email_local (c : ascii) : bool :=
  alnum c || bool_decide (c ∈ [ "."; "_"; "%"; "+"; "-" ]%char).
Definition email_domain (c : ascii) : bool :=
  alnum c || bool_decide (c ∈ [ "."; "-" ]%char).

(** [^[a-zA-Z0-9._%+-]+@[a-zA-Z0-9.-]+\.[a-zA-Z]{2,}$] *)
Definition email_pattern : regex :=
  seq_of [ Bol; plus email_local; Chr "@"; plus email_domain; Chr ".";
           at_least 2 alpha; Eol ].

Definition template_exclude_patterns : list regex := [ uuid_pattern; email_pattern ].

(** [TemplateNormalizer.is_invalid_template] *)
Definition is_invalid_template (entity : string) : bool :=
  if is_default_input entity then true
  else if existsb (fun pattern => re_match false pattern entity) template_exclude_patterns
  then true
  else negb (existsb (fun keyword => contains keyword (lower entity)) valid_keywords).

(** [clean_entity]: the base class strips; [CompanyNormalizer] then removes
    one trailing legal suffix. *)
Definition clean_entity (c : EntityClass) (entity : string) : string :=
  match c with
  | Company => re_sub_delete true legal_suffix_pattern (strip entity)
  | _ => strip entity
  end.

(** *** The resolution engine *)

Section Engine.

(** [SequenceMatcher(None, a, b).ratio()]; [Difflib.ratio] is the instance
    used in the examples. *)
Variable ratio : string -> string -> Q.

(** The order in which a [for] loop visits the elements of a Python set. *)
Variable set_iter : gset string -> list string.

(** [Normalizer.similarity] *)
Definition similarity (a b : string) : Q := ratio (lower a) (lower b).

(** One round of the loops of [find_best_match]:
    [if score > best_score: best_score = score; best_match = candidate]. *)
Definition keep_better (entity : string) (best : string * Q) (candidate : string)
    : string * Q :=
  let score := similarity entity candidate in
  if Qgt_bool score (snd best) then (candidate, score) else best.

(** [Normalizer.find_best_match]: first the standardized entities, then
    [set(self.mappings.values())]. *)
Definition find_best_match (st : Normalizer) (entity : string) : string * Q :=
  let over_entities :=
    foldl (keep_better entity) (entity, 0%Q) (set_iter (standardized_entities st)) in
  foldl (keep_better entity) over_entities (set_iter (map_img (mappings st))).

(** [Normalizer.add_mapping] *)
Definition add_mapping (entity standardized : string) (st : Normalizer) : Normalizer :=
  with_stores st
    (<[entity := standardized]> (mappings st))
    ({[standardized]} ∪ standardized_entities st)
    (delete entity (pending_review st)).

(** [Normalizer.add_standardized_entity] *)
Definition add_standardized_entity (entity : string) (st : Normalizer) : Normalizer :=
  with_stores st (mappings st) ({[entity]} ∪ standardized_entities st)
    (pending_review st).

(** [Normalizer.approve_mapping]; [standardized] is [None] when the caller
    leaves the argument out. *)
Definition approve_mapping (entity : string) (standardized : option string)
    (st : Normalizer) : Normalizer :=
  match pending_review st !! entity with
  | Some review =>
      add_mapping entity (default (suggested review) standardized) st
  | None => st
  end.

(** [Normalizer.normalize]: the result and the object after the call. *)
Definition base_normalize (st : Normalizer) (entity : string) : string * Normalizer :=
  if is_default_input entity then (get_default_entity (kind st), st)
  else
    let cleaned_entity := clean_entity (kind st) entity in
    match mappings st !! cleaned_entity with
    | Some canonical => (canonical, st)
    | None =>
        if bool_decide (cleaned_entity ∈ standardized_entities st)
        then (cleaned_entity, st)
        else
          let best := find_best_match st cleaned_entity in
          if Qge_bool (snd best) (auto_threshold st) then
            (fst best, add_mapping cleaned_entity (fst best) st)
          else if Qge_bool (snd best) (suggest_threshold st) then
            (fst best,
             with_stores st (mappings st) (standardized_entities st)
               (<[cleaned_entity := mkReview (fst best) (snd best)]>
                  (pending_review st)))
          else (cleaned_entity, add_standardized_entity cleaned_entity st)
    end.

(** The validation that a subclass runs before [super().normalize]. *)
Definition is_invalid (c : EntityClass) (entity : string) : bool :=
  match c with
  | Company => is_invalid_company entity
  | Template => is_invalid_template entity
  | _ => false
  end.

(** [normalizer.normalize(entity)] with the method of the object's class. *)
Definition normalize (st : Normalizer) (entity : string) : string * Normalizer :=
  if is_invalid (kind st) entity then (get_default_entity (kind st), st)
  else base_normalize st entity.

(** The input reaches the fuzzy-matching step of [normalize]: it passes the
    class validation and the empty/unknown test, and its cleaned form is
    neither a key of the mapping table nor a standardized entity. *)
Definition reaches_matching (st : Normalizer) (entity : string) : Prop :=
  is_invalid (kind st) entity = false /\
  is_default_input entity = false /\
  mappings st !! clean_entity (kind st) entity = None /\
  clean_entity (kind st) entity ∉ standardized_entities st.

(** *** Sequences of public operations *)

Inductive operation : Type :=
| Normalize (entity : string)
| ApproveMapping (entity : string) (standardized : option string)
| AddMapping (entity standardized : string)
| AddStandardizedEntity (entity : string).

Definition exec (st : Normalizer) (op : operation) : Normalizer :=
  match op with
  | Normalize entity => snd (normalize st entity)
  | ApproveMapping entity standardized => approve_mapping entity standardized st
  | AddMapping entity standardized => add_mapping entity standardized st
  | AddStandardizedEntity entity => add_standardized_entity entity st
  end.

Definition run (ops : list operation) (st : Normalizer) : Normalizer :=
  foldl exec st ops.

(** Every value of the mapping table is a standardized entity. *)
Definition values_standardized (st : Normalizer) : Prop :=
  forall k v, mappings st !! k = Some v -> v ∈ standardized_entities st.

End Engine.

(** ** The mapping file

    [save_mappings] talks to the file system.  The world holds the content
    of [self.mappings_file] ([None]: no such file), what was printed, and
    how many further file operations will succeed before one raises
    ([None]: all of them succeed). *)

Inductive message : Type :=
| Saved (count : nat)   (* "Saved {count} mappings to {file}" *)
| ErrorSaving.          (* "Error saving mappings: ..." *)

Record World : Type := mkWorld {
  disk : option string;
  io_budget : option nat;
  stdout : list message
}.

(** A computation either returns a value or raises; the world it leaves
    behind is kept in both cases. *)
Definition IO (A : Type) : Type := World -> World * option A.

#[global] Instance io_ret : MRet IO := fun A a w => (w, Some a).

#[global] Instance io_bind : MBind IO := fun A B f m w =>
  match m w with
  | (w', Some a) => f a w'
  | (w', None) => (w', None)
  end.

(** [try: body except Exception: handler] *)
Definition try_except {A : Type} (body handler : IO A) : IO A := fun w =>
  match body w with
  | (w', Some a) => (w', Some a)
  | (w', None) => handler w'
  end.

(** One file operation is attempted: it is paid from the budget, or raises. *)
Definition spend (w : World) : option World :=
  match io_budget w with
  | Some 0 => None
  | Some (S n) => Some (mkWorld (disk w) (Some n) (stdout w))
  | None => Some w
  end.

(** [open(file, 'w')]: on success the file exists and is empty. *)
Definition open_w : IO unit := fun w =>
  match spend w with
  | Some w' => (mkWorld (Some "") (io_budget w') (stdout w'), Some tt)
  | None => (w, None)
  end.

(** [f.write(chunk)] *)
Definition write (chunk : string) : IO unit := fun w =>
  match spend w with
  | Some w' =>
      (mkWorld (Some (default "" (disk w') ++ chunk)) (io_budget w') (stdout w'),
       Some tt)
  | None => (w, None)
  end.

(** [print(...)] *)
Definition print (m : message) : IO unit := fun w =>
  (mkWorld (disk w) (io_budget w) (stdout w ++ [m]), Some tt).

(** [for chunk in iterable: fp.write(chunk)], the body of [json.dump]. *)
Fixpoint write_all (chunks : list string) : IO unit :=
  match chunks with
  | [] => mret tt
  | chunk :: rest => write chunk ;; write_all rest
  end.

(** The text made of the chunks written so far. *)
Fixpoint join (chunks : list string) : string :=
  match chunks with
  | [] => ""
  | chunk :: rest => chunk ++ join rest
  end.

Section Store.

Variable set_iter : gset string -> list string.

(** The chunks that [json.dump(data, f, indent=2)] writes for the document
    [{'mappings': ..., 'standardized_entities': [...]}]. *)
Variable json_chunks : gmap string string -> list string -> list string.

(** [Normalizer.save_mappings]; the object itself is only read. *)
Definition save_mappings (st : Normalizer) : IO unit :=
  try_except
    (open_w ;;
     write_all (json_chunks (mappings st) (set_iter (standardized_entities st))) ;;
     print (Saved (size (mappings st))))
    (print ErrorSaving).

End Store.

(** The text of [json.dump({'mappings': {}, 'standardized_entities': []}, f,
    indent=2)], chunk by chunk. *)
Definition quote : string := String (ascii_of_nat 34) "".
Definition newline : string := String (ascii_of_nat 10) "".

Definition empty_document_chunks : list string :=
  [ "{"; newline ++ "  "; quote ++ "mappings" ++ quote; ": "; "{}";
    "," ++ newline ++ "  "; quote ++ "standardized_entities" ++ quote; ": ";
    "[]"; newline; "}" ].

(** ** Stores used in the examples *)

Definition store (c : EntityClass) (m : gmap string string) (e : gset string)
    (p : gmap string Review) : Normalizer :=
  with_stores (new_normalizer c DEFAULT_AUTO_THRESHOLD DEFAULT_SUGGEST_THRESHOLD) m e p.

Definition blusky : string := "BluSky Restoration Contractors, LLC".

(** A company normaliser that knows one canonical name. *)
Definition blusky_store : Normalizer := store Company ∅ {[ blusky ]} ∅.

(** A category normaliser that knows one canonical name, and the same with
    a variant that was mapped elsewhere by hand. *)
Definition acme_store : Normalizer := store Category ∅ {[ "Acme Co" ]} ∅.

Definition acme_mapped_store : Normalizer :=
  store Category {[ "Acme" := "Other Corp" ]} {[ "Acme Co"; "Other Corp" ]} ∅.

Definition holdings_store : Normalizer :=
  store Company {[ "Acme" := "Acme Holdings" ]} {[ "Acme Holdings" ]} ∅.

(** One standardized entity and a mapping whose value is not standardized,
    as a hand-written mapping file can contain. *)
Definition corp_store : Normalizer :=
  store Category {[ "AC" := "Acme Corp" ]} {[ "Acme Co" ]} ∅.

(** A hand-written mapping file whose only mapped value is missing from
    its list of standardized entities. *)
Definition dangling_document : gmap string string * list string :=
  ({[ "AC" := "Acme Corp" ]}, [ "Acme Co" ]).

(** The normaliser that [CategoryNormalizer(mapping_file)] builds on it. *)
Definition dangling_loaded : Normalizer :=
  construct Category DEFAULT_AUTO_THRESHOLD DEFAULT_SUGGEST_THRESHOLD
    (Some dangling_document).

(** A mapping file as [save_mappings] writes it. *)
Definition sound_document : gmap string string * list string :=
  ({[ "AC" := "Acme Co" ]}, [ "Acme Co"; "Zenith" ]).

(** A normaliser configured with both thresholds at 0. *)
Definition zero_threshold_store : Normalizer :=
  with_stores (new_normalizer Category 0 0) ∅ {[ "Acme Co" ]} ∅.

Definition session : list operation :=
  [ AddStandardizedEntity "Acme Co"; Normalize "Acme";
    ApproveMapping "Acme" None; AddMapping "ACME" "Acme Co";
    Normalize "Zenith" ].

(** [json.dump] on the document of a normaliser whose stores are empty. *)
Definition json_chunks_of_empty (m : gmap string string) (l : list string)
    : list string :=
  empty_document_chunks.

(** A mapping file with some earlier content, and a file system on which
    the [n]-th file operation from now fails. *)
Definition failing_after (n : nat) : World := mkWorld (Some "old") (Some n) [].

(** ** Remaining methods and the scripts that call the normaliser *)

(** Every pending review belongs to a variant that has no mapping yet. *)
Definition pending_unmapped (st : Normalizer) : Prop :=
  forall k, is_Some (pending_review st !! k) -> mappings st !! k = None.

(** Every pending review carries a score of the suggestion tier. *)
Definition pending_in_band (st : Normalizer) : Prop :=
  forall k r, pending_review st !! k = Some r ->
    (suggest_threshold st <= score r)%Q /\ (score r < auto_threshold st)%Q.

(** The validity check that [extract_entities_from_index] applies to a
    company cell, in [refresh_normalization.py] and in
    [update_dashboard.py]; both copy the pattern list and the list of known
    companies of [CompanyNormalizer] verbatim. *)
Definition index_company_is_valid (company : string) : bool :=
  let is_valid := negb (matches_exclude_pattern company) in
  let is_valid := if bool_decide (company ∈ known_companies) then true else is_valid in
  let is_valid := if (50 <? String.length company)%nat then false else is_valid in
  if (8 <? count_words false company)%nat then false else is_valid.

(** What is left of a string once a prefix has been read. *)
Definition ends_with (s rest : string) : Prop := exists p, s = p ++ rest.

Inductive exception : Type := RuntimeError | EOFError.

Inductive review_outcome : Type :=
| Completed
| Raised (e : exception).

(** The three module-level normalisers of [normalize_email_data.py]. *)
Record Normalizers : Type := mkNormalizers {
  company_normalizer : Normalizer;
  category_normalizer : Normalizer;
  template_normalizer : Normalizer
}.

Section Callers.

Variable ratio : string -> string -> Q.
Variable set_iter : gset string -> list string.

(** The order in which [pending.items()] yields the entries of the dict. *)
Variable dict_items : gmap string Review -> list (string * Review).

Variable json_chunks : gmap string string -> list string -> list string.

(** [Normalizer.get_all_standardized]:
    [sorted(list(self.standardized_entities))].  Strings compare by code
    point; equal strings cannot be told apart, so any sorting algorithm
    gives the list that [sorted] gives. *)
Definition get_all_standardized (st : Normalizer) : list string :=
  merge_sort String.le (set_iter (standardized_entities st)).


(** One of the three blocks of [normalize_email_data]:
    [if key in data and data[key]: data[key] = normalizer.normalize(data[key])]. *)
Definition normalize_field (key : string) (n : Normalizer)
    (data : gmap string string) : gmap string string * Normalizer :=
  match data !! key with
  | Some value =>
      if String.eqb value "" then (data, n)
      else (<[key := fst (normalize ratio set_iter n value)]> data,
            snd (normalize ratio set_iter n value))
  | None => (data, n)
  end.

(** [normalize_email_data], on a record whose fields are strings; the
    result is the copy, the argument is left as it was. *)
Definition normalize_email_data (ns : Normalizers) (email_data : gmap string string)
    : gmap string string * Normalizers :=
  let step1 := normalize_field "company_name" (company_normalizer ns) email_data in
  let step2 := normalize_field "support_category" (category_normalizer ns) (fst step1) in
  let step3 := normalize_field "subject_template" (template_normalizer ns) (fst step2) in
  (fst step3, mkNormalizers (snd step1) (snd step2) (snd step3)).

(** [for entity in entities: normalizer.normalize(entity)], the loops that
    end [extract_entities_from_index]. *)
Definition normalize_all (st : Normalizer) (entities : gset string) : Normalizer :=
  foldl (fun st' entity => snd (normalize ratio set_iter st' entity)) st
    (set_iter entities).

(** [len(normalizer.mappings) > count], the test that sets [changes_made]
    in [refresh_normalization.py]. *)
Definition changes_made (st : Normalizer) (entities : gset string) : bool :=
  (size (mappings st) <? size (mappings (normalize_all st entities)))%nat.

(** The [while True] loop of [review_normalizer] for one entity.  Each
    [input()] takes the next answer; [None] is the [EOFError] raised when
    the answers run out. *)
Fixpoint ask (entity : string) (st : Normalizer) (answers : list string)
    : option (Normalizer * list string) :=
  match answers with
  | [] => None
  | answer :: rest =>
      let choice := lower answer in
      if String.eqb choice "a" then
        Some (approve_mapping entity None st, rest)
      else if String.eqb choice "r" then
        Some (add_standardized_entity entity st, rest)
      else if String.eqb choice "c" then
        match rest with
        | [] => None
        | custom :: rest' =>
            if String.eqb custom "" then ask entity st rest'
            else Some (approve_mapping entity (Some custom) st, rest')
        end
      else if String.eqb choice "s" then Some (st, rest)
      else ask entity st rest
  end.

(** [for entity, info in pending.items(): ...] where [pending] is the very
    dict [normalizer.pending_review] that [approve_mapping] deletes from.
    Each step of the iterator, the last one included, first compares the
    size of the dict with the size it had when the loop began ([used]) and
    raises [RuntimeError] when they differ. *)
Fixpoint review_entries (used : nat) (entries : list (string * Review))
    (st : Normalizer) (answers : list string) : Normalizer * review_outcome :=
  if negb (size (pending_review st) =? used)%nat then (st, Raised RuntimeError)
  else
    match entries with
    | [] => (st, Completed)
    | (entity, _) :: rest =>
        match ask entity st answers with
        | None => (st, Raised EOFError)
        | Some (st', answers') => review_entries used rest st' answers'
        end
    end.

(** [review_normalizer]: the object, the world and the way the call ends.
    [save_mappings] is reached only when the loop completes. *)
Definition review_normalizer (st : Normalizer) (answers : list string) (w : World)
    : Normalizer * World * review_outcome :=
  let pending := pending_review st in
  if bool_decide (pending = ∅) then (st, w, Completed)
  else
    match review_entries (size pending) (dict_items pending) st answers with
    | (st', Completed) =>
        (st', fst (save_mappings set_iter json_chunks st' w), Completed)
    | (st', Raised e) => (st', w, Raised e)
    end.

End Callers.

(** A category normaliser with one suggestion waiting for review, with and
    without the standardized entity that was suggested. *)
Definition pending_store : Normalizer :=
  store Category ∅ {[ "Acme Co" ]} {[ "Acme" := mkReview "Acme Co" (8 # 11) ]}.

Definition pending_only_store : Normalizer :=
  store Category ∅ ∅ {[ "Acme" := mkReview "Acme Co" (8 # 11) ]}.

(** Three fresh normalisers and an email record with an empty company. *)
Definition fresh_normalizers : Normalizers :=
  mkNormalizers (store Company ∅ ∅ ∅) (store Category ∅ ∅ ∅) (store Template ∅ ∅ ∅).

Definition sample_email : gmap string string :=
  {[ "company_name" := ""; "support_category" := "Billing";
     "sender" := "someone@example.com" ]}.

(** A set iterated from its last element to its first. *)
Definition backwards (X : gset string) : list string := reverse (elements X).

(** No mapping file yet, and a file system that does not fail. *)
Definition no_file : World := mkWorld None None [].

(** * Properties *)

(** ** Strings *)

Lemma lower_char_idem (c : ascii) : lower_char (lower_char c) = lower_char c.
Proof. destruct c as [[] [] [] [] [] [] [] []]; reflexivity. Qed.

Lemma lower_idem (s : string) : lower (lower s) = lower s.
Proof.
  induction s as [|c s IH]; simpl; [reflexivity|].
  now rewrite lower_char_idem, IH.
Qed.

Lemma isspace_lower_char (c : ascii) : isspace (lower_char c) = isspace c.
Proof. destruct c as [[] [] [] [] [] [] [] []]; reflexivity. Qed.

Lemma all_space_lower (s : string) : all_space (lower s) = all_space s.
Proof.
  induction s as [|c s IH]; simpl; [reflexivity|].
  now rewrite isspace_lower_char, IH.
Qed.

Lemma contains_all_space (k : ascii) (kw s : string) :
  isspace k = false -> all_space s = true -> contains (String k kw) s = false.
Proof.
  intros Hk. induction s as [|c s IH]; simpl; [reflexivity|].
  intros [Hc Hs]%andb_prop.
  destruct (ascii_dec k c) as [->|_]; [congruence|].
  simpl. now apply IH.
Qed.

Lemma is_default_input_spec (s : string) :
  is_default_input s = true <->
  s = "" \/ lower s = "n/a" \/ lower s = "unknown".
Proof.
  unfold is_default_input. rewrite !orb_true_iff, !String.eqb_eq.
  split; [|tauto].
  intros [[[H|H]|H]|H]; auto.
  destruct s; [auto | discriminate].
Qed.

Lemma Qle_by_computation (x y : Q) : Qle_bool x y = true -> (x <= y)%Q.
Proof. apply Qle_bool_iff. Qed.

(** ** The stores under the public operations *)

(** The object built without a mapping file has no mapping at all. *)
Lemma values_standardized_new (c : EntityClass) (auto suggest : Q) :
  values_standardized (new_normalizer c auto suggest).
Proof. intros k v Hk. simpl in Hk. now rewrite lookup_empty in Hk. Qed.

Section EngineFacts.

Variable ratio : string -> string -> Q.
Variable set_iter : gset string -> list string.

Local Abbreviation normalize := (normalize ratio set_iter).
Local Abbreviation base_normalize := (base_normalize ratio set_iter).
Local Abbreviation find_best_match := (find_best_match ratio set_iter).
Local Abbreviation run := (run ratio set_iter).
Local Abbreviation exec := (exec ratio set_iter).

(** [normalize] leaves the object alone, or adds a mapping, or rewrites the
    pending reviews, or adds a standardized entity. *)
Lemma normalize_state_cases (st : Normalizer) (entity : string) :
  (normalize st entity).2 = st
  \/ (exists c b, (normalize st entity).2 = add_mapping c b st)
  \/ (exists p, (normalize st entity).2
                = with_stores st (mappings st) (standardized_entities st) p)
  \/ (exists c, (normalize st entity).2 = add_standardized_entity c st).
Proof.
  unfold normalize, base_normalize.
  destruct (is_invalid _ _); [now left|].
  destruct (is_default_input _); [now left|].
  destruct (mappings st !! _); [now left|].
  case_bool_decide; [now left|].
  destruct (Qge_bool _ (auto_threshold st)); [right; left; eauto|].
  destruct (Qge_bool _ (suggest_threshold st)); simpl; eauto 6.
Qed.

Lemma add_mapping_grows (c b : string) (st : Normalizer) :
  dom (mappings st) ⊆ dom (mappings (add_mapping c b st))
  /\ standardized_entities st ⊆ standardized_entities (add_mapping c b st).
Proof. simpl. rewrite dom_insert_L. set_solver. Qed.

Lemma exec_grows (st : Normalizer) (op : operation) :
  dom (mappings st) ⊆ dom (mappings (exec st op))
  /\ standardized_entities st ⊆ standardized_entities (exec st op).
Proof.
  destruct op as [entity|entity standardized|entity standardized|entity]; simpl.
  - destruct (normalize_state_cases st entity)
      as [-> | [(c & b & ->) | [(p & ->) | (c & ->)]]];
      [done | apply add_mapping_grows | done | simpl; set_solver].
  - unfold approve_mapping. destruct (pending_review st !! entity);
      [apply add_mapping_grows | done].
  - apply add_mapping_grows.
  - simpl. set_solver.
Qed.

Lemma add_mapping_values_standardized (c b : string) (st : Normalizer) :
  values_standardized st -> values_standardized (add_mapping c b st).
Proof.
  intros Hinv k v. simpl. rewrite lookup_insert.
  case_decide; [intros [= <-]; set_solver|].
  intros Hk. apply Hinv in Hk. set_solver.
Qed.

Lemma exec_values_standardized (st : Normalizer) (op : operation) :
  values_standardized st -> values_standardized (exec st op).
Proof.
  intros Hinv.
  destruct op as [entity|entity standardized|entity standardized|entity]; simpl.
  - destruct (normalize_state_cases st entity)
      as [-> | [(c & b & ->) | [(p & ->) | (c & ->)]]];
      [done | now apply add_mapping_values_standardized | done |].
    intros k v Hk. apply Hinv in Hk. simpl. set_solver.
  - unfold approve_mapping. destruct (pending_review st !! entity);
      [now apply add_mapping_values_standardized | done].
  - now apply add_mapping_values_standardized.
  - intros k v Hk. apply Hinv in Hk. simpl. set_solver.
Qed.

(** C9.  Along every sequence of calls to [normalize], [approve_mapping],
    [add_mapping] and [add_standardized_entity], no key leaves the mapping
    table and no element leaves the set of standardized entities. *)
Theorem stores_grow_monotonically (ops : list operation) (st : Normalizer) :
  dom (mappings st) ⊆ dom (mappings (run ops st))
  /\ standardized_entities st ⊆ standardized_entities (run ops st).
Proof.
  revert st. induction ops as [|op ops IH]; intros st; [done|].
  destruct (exec_grows st op) as [Hm Hs].
  destruct (IH (exec st op)) as [Hm' Hs'].
  change (run (op :: ops) st) with (run ops (exec st op)).
  split; etrans; eassumption.
Qed.

(** C6 (amended).  The four operations [normalize], [approve_mapping],
    [add_mapping] and [add_standardized_entity] keep every value of the
    mapping table in the standardized set once it is there, because each
    write by [add_mapping] also adds the value to the set.  The property
    therefore holds in every state reached from a normaliser constructed
    without a mapping file, and from one constructed on a mapping file in
    which every mapped value is listed among the standardized entities.
    [load_mappings] itself enforces nothing: it takes the file as it is. *)
Theorem mapping_values_stay_standardized (ops : list operation) :
  (forall st, values_standardized st -> values_standardized (run ops st))
  /\ (forall c auto suggest,
        values_standardized (run ops (new_normalizer c auto suggest)))
  /\ (forall c auto suggest,
        values_standardized (run ops (construct c auto suggest None)))
  /\ (forall c auto suggest m l,
        (forall k v, m !! k = Some v -> v ∈ l) ->
        values_standardized (run ops (construct c auto suggest (Some (m, l))))).
Proof.
  assert (Hstep : forall st, values_standardized st -> values_standardized (run ops st)).
  { induction ops as [|op ops IH]; intros st Hinv; [done|].
    change (run (op :: ops) st) with (run ops (exec st op)).
    apply IH. now apply exec_values_standardized. }
  split; [exact Hstep|]. split; [|split].
  - intros c auto suggest. apply Hstep, values_standardized_new.
  - intros c auto suggest. apply Hstep. intros k v Hk. simpl in Hk.
    now rewrite lookup_empty in Hk.
  - intros c auto suggest m l Hfile. apply Hstep. intros k v Hk. simpl in Hk |- *.
    apply elem_of_list_to_set. now apply (Hfile k).
Qed.

(** C10.  The scorer lowercases both arguments itself, so the score does
    not change when either argument is lowercased beforehand. *)
Theorem similarity_ignores_case (a b : string) :
  similarity ratio a b = similarity ratio (lower a) (lower b).
Proof. unfold similarity. now rewrite !lower_idem. Qed.

Lemma whitespace_only_invalid_template (s : string) :
  whitespace_only s -> is_invalid_template s = true.
Proof.
  intros [_ Hs]. unfold is_invalid_template.
  destruct (is_default_input s); [reflexivity|].
  destruct (existsb _ template_exclude_patterns); [reflexivity|].
  rewrite <- all_space_lower in Hs.
  unfold valid_keywords. cbn [existsb].
  rewrite !contains_all_space by (reflexivity || exact Hs).
  reflexivity.
Qed.

(** C3 (amended).  An input that is empty, or equal to "n/a" or "unknown"
    up to letter case, gets the default value of the normaliser's class and
    leaves mapping table, standardized set and pending reviews as they
    were; so does a whitespace-only input given to the template normaliser.
    The defaults are "Unknown Company" for companies and "Other" for
    categories and templates. *)
Theorem default_input_returns_default (st : Normalizer) (s : string) :
  s = "" \/ lower s = "n/a" \/ lower s = "unknown"
  \/ (kind st = Template /\ whitespace_only s) ->
  normalize st s = (get_default_entity (kind st), st)
  /\ get_default_entity Company = "Unknown Company"
  /\ get_default_entity Category = "Other"
  /\ get_default_entity Template = "Other".
Proof.
  intros H. split; [|now repeat split].
  unfold normalize, base_normalize.
  destruct (is_invalid (kind st) s) eqn:Hinv; [reflexivity|].
  destruct H as [H | [H | [H | [Hk Hw]]]].
  - subst s. reflexivity.
  - now replace (is_default_input s) with true
      by (symmetry; apply is_default_input_spec; auto).
  - now replace (is_default_input s) with true
      by (symmetry; apply is_default_input_spec; auto).
  - rewrite Hk in Hinv. simpl in Hinv.
    now rewrite whitespace_only_invalid_template in Hinv.
Qed.

End EngineFacts.

(** ** The invariant and the mapping file *)

(** What the invariant of a loaded store amounts to: [load_mappings] takes
    the document as it is. *)
Lemma values_standardized_load (m : gmap string string) (l : list string)
    (st : Normalizer) :
  values_standardized (load_mappings (Some (m, l)) st) <->
  forall k v, m !! k = Some v -> v ∈ l.
Proof.
  unfold values_standardized. simpl.
  split; intros H k v Hk; apply H in Hk; set_solver.
Qed.

(** A store written by [save_mappings] and read back by [load_mappings]
    satisfies the invariant whenever the saved store did. *)
Lemma values_standardized_reload (set_iter : gset string -> list string)
    (st st0 : Normalizer) :
  (forall X : gset string, set_iter X ≡ₚ elements X) ->
  values_standardized st ->
  values_standardized
    (load_mappings (Some (mappings st, set_iter (standardized_entities st))) st0).
Proof.
  intros Hperm Hinv. apply values_standardized_load. intros k v Hk.
  rewrite Hperm. apply elem_of_elements. now apply (Hinv k).
Qed.

Lemma default_input_returns_default_witness :
  lower "N/A" = "n/a"
  /\ normalize Difflib.ratio elements (store Company ∅ ∅ ∅) "N/A"
     = ("Unknown Company", store Company ∅ ∅ ∅).
Proof.
  split; [reflexivity|].
  apply (default_input_returns_default Difflib.ratio elements
           (store Company ∅ ∅ ∅) "N/A").
  right; left; reflexivity.
Defined.

(** C3, as stated, fails on a whitespace-only input: the category
    normaliser cleans " " to the empty string, finds no match and
    registers the empty string as a new standardized entity. *)
Lemma whitespace_input_counterexample :
  whitespace_only " "
  /\ normalize Difflib.ratio elements (store Category ∅ ∅ ∅) " "
     = ("", store Category ∅ {[ "" ]} ∅)
  /\ get_default_entity Category <> ""
  /\ standardized_entities (store Category ∅ ∅ ∅) <> {[ "" ]}.
Proof.
  split; [split; [discriminate | reflexivity]|].
  split; [vm_compute; reflexivity|].
  split; [discriminate|].
  intros H. assert (Hin : "" ∈ standardized_entities (store Category ∅ ∅ ∅))
    by (rewrite H; set_solver).
  simpl in Hin. set_solver.
Qed.

(** ** The company validator *)

(** C4 fails on the code for one entry of the allow-list: the exclusion
    patterns are tried before the list of known companies is consulted, and
    "Comtel Systems Technology" contains the excluded word "system". *)
Theorem known_company_rejected :
  "Comtel Systems Technology" ∈ known_companies
  /\ re_search true vocabulary_pattern "Comtel Systems Technology" = true
  /\ is_invalid_company "Comtel Systems Technology" = true.
Proof.
  split; [|split; vm_compute; reflexivity].
  unfold known_companies. repeat constructor.
Qed.

(** The validator on the inputs that the specification lists. *)
Example company_validator_examples :
  List.map is_invalid_company
    [ "123"; "a1b2c3d4-e5f6-7890-abcd-ef1234567890"; "SQL error occurred"; blusky ]
  = [ true; true; true; false ].
Proof. vm_compute. reflexivity. Qed.

(** The other sixteen known companies, "BluSky Restoration Contractors, LLC"
    among them, are accepted. *)
Lemma other_known_companies_accepted :
  forall s, s ∈ known_companies -> s <> "Comtel Systems Technology" ->
            is_invalid_company s = false.
Proof.
  intros s Hs Hne. unfold known_companies in Hs.
  repeat (apply elem_of_cons in Hs as [-> | Hs];
          [first [vm_compute; reflexivity | congruence]|]).
  now apply elem_of_nil in Hs.
Qed.

(** ** The resolution tiers *)

Section Resolution.

Variable ratio : string -> string -> Q.
Variable set_iter : gset string -> list string.

(** Whatever the order, a loop over a set visits exactly its elements. *)
Hypothesis set_iter_perm : forall X : gset string, set_iter X ≡ₚ elements X.

Local Abbreviation similarity := (similarity ratio).
Local Abbreviation keep_better := (keep_better ratio).
Local Abbreviation find_best_match := (find_best_match ratio set_iter).
Local Abbreviation normalize := (normalize ratio set_iter).
Local Abbreviation run := (run ratio set_iter).

Lemma Qgt_bool_true (x y : Q) : Qgt_bool x y = true <-> (y < x)%Q.
Proof.
  unfold Qgt_bool. rewrite negb_true_iff, <- not_true_iff_false, Qle_bool_iff.
  split; [apply Qnot_le_lt | apply Qlt_not_le].
Qed.

Lemma Qge_bool_true (x y : Q) : Qge_bool x y = true <-> (y <= x)%Q.
Proof. unfold Qge_bool. apply Qle_bool_iff. Qed.

Lemma Qge_bool_false (x y : Q) : Qge_bool x y = false <-> (x < y)%Q.
Proof.
  unfold Qge_bool. rewrite <- not_true_iff_false, Qle_bool_iff.
  split; [apply Qnot_le_lt | apply Qlt_not_le].
Qed.

(** Candidates that do not score above the current best leave it alone. *)
Lemma foldl_keep_better_none (entity : string) (l : list string) (best : string * Q) :
  (forall v, v ∈ l -> (similarity entity v <= snd best)%Q) ->
  foldl (keep_better entity) best l = best.
Proof.
  induction l as [|v l IH]; intros Hle; [reflexivity|].
  simpl. unfold keep_better at 2.
  destruct (Qgt_bool _ _) eqn:Hgt.
  - apply Qgt_bool_true in Hgt.
    exfalso. eapply Qlt_not_le; [exact Hgt|]. apply Hle. left.
  - apply IH. intros w Hw. apply Hle. now right.
Qed.

Lemma set_iter_singleton (E : string) : set_iter {[E]} = [E].
Proof.
  apply Permutation_singleton_r. rewrite set_iter_perm.
  now rewrite elements_singleton.
Qed.

Lemma elem_of_set_iter (X : gset string) (v : string) : v ∈ set_iter X <-> v ∈ X.
Proof. now rewrite set_iter_perm, elem_of_elements. Qed.

(** The steps of [normalize] that follow the fuzzy match. *)
Lemma normalize_matching (st : Normalizer) (s : string) :
  reaches_matching st s ->
  normalize st s =
    let cleaned := clean_entity (kind st) s in
    let best := find_best_match st cleaned in
    if Qge_bool (snd best) (auto_threshold st) then
      (fst best, add_mapping cleaned (fst best) st)
    else if Qge_bool (snd best) (suggest_threshold st) then
      (fst best,
       with_stores st (mappings st) (standardized_entities st)
         (<[cleaned := mkReview (fst best) (snd best)]> (pending_review st)))
    else (cleaned, add_standardized_entity cleaned st).
Proof.
  intros (Hvalid & Hdef & Hmap & Hstd).
  unfold normalize, base_normalize.
  rewrite Hvalid, Hdef, Hmap. now rewrite bool_decide_eq_false_2.
Qed.

(** C1 (amended).  Let the standardized set be exactly [{E}] and let [s]
    reach the fuzzy-matching step (it passes the class validation, is not
    an empty/unknown input, and its cleaned form is neither a key of the
    mapping table nor [E] itself).  If the auto-threshold is positive, [E]
    scores at least the auto-threshold and no value of the mapping table
    scores above [E], then [normalize] returns [E], records the mapping
    from the cleaned string to [E] and keeps [E] standardized.  If instead
    the best score is strictly below both thresholds, [normalize] returns
    the cleaned string, adds it to the standardized set and leaves mapping
    table and pending reviews untouched. *)
Theorem threshold_boundaries (st : Normalizer) (s E : string) :
  standardized_entities st = {[E]} ->
  reaches_matching st s ->
  let cleaned := clean_entity (kind st) s in
  ((0 < auto_threshold st)%Q ->
   (auto_threshold st <= similarity cleaned E)%Q ->
   (forall v, v ∈ (map_img (mappings st) : gset string) ->
              (similarity cleaned v <= similarity cleaned E)%Q) ->
   (normalize st s).1 = E
   /\ mappings (normalize st s).2 = <[cleaned := E]> (mappings st)
   /\ E ∈ standardized_entities (normalize st s).2)
  /\
  ((snd (find_best_match st cleaned) < suggest_threshold st)%Q ->
   (snd (find_best_match st cleaned) < auto_threshold st)%Q ->
   (normalize st s).1 = cleaned
   /\ standardized_entities (normalize st s).2 = {[cleaned]} ∪ standardized_entities st
   /\ mappings (normalize st s).2 = mappings st
   /\ pending_review (normalize st s).2 = pending_review st).
Proof.
  intros Hone Hreach cleaned. rewrite (normalize_matching st s Hreach).
  fold cleaned. cbv zeta. split.
  - intros Hpos Hauto Hvals.
    assert (Hbest : find_best_match st cleaned = (E, similarity cleaned E)).
    { unfold find_best_match. rewrite Hone, set_iter_singleton. simpl.
      unfold keep_better at 2. simpl.
      replace (Qgt_bool (similarity cleaned E) 0) with true.
      2:{ symmetry. apply Qgt_bool_true. eapply Qlt_le_trans; eassumption. }
      apply foldl_keep_better_none. intros v Hv. simpl.
      apply Hvals. now apply elem_of_set_iter. }
    rewrite Hbest. simpl.
    replace (Qge_bool (similarity cleaned E) (auto_threshold st)) with true
      by (symmetry; now apply Qge_bool_true).
    simpl. repeat split. now apply elem_of_union_l, elem_of_singleton.
  - intros Hsug Hauto.
    apply Qge_bool_false in Hsug, Hauto. rewrite Hsug, Hauto.
    simpl. repeat split.
Qed.

(** C2 (amended).  Let [s] reach the fuzzy-matching step.  If the best
    score is at least the suggest-threshold and strictly below the
    auto-threshold, [normalize] returns the best candidate, stores it with
    its score as the pending review of the cleaned string and leaves the
    mapping table and the standardized set alone; approving the cleaned
    string afterwards records the mapping to the suggestion and removes the
    pending review.  Approving a variant that has no pending review changes
    nothing. *)
Theorem suggest_tier_round_trip (st : Normalizer) (s : string) :
  reaches_matching st s ->
  let cleaned := clean_entity (kind st) s in
  let best := find_best_match st cleaned in
  (suggest_threshold st <= snd best)%Q ->
  (snd best < auto_threshold st)%Q ->
  let st' := (normalize st s).2 in
  let st'' := approve_mapping cleaned None st' in
  (normalize st s).1 = fst best
  /\ mappings st' = mappings st
  /\ standardized_entities st' = standardized_entities st
  /\ pending_review st' = <[cleaned := mkReview (fst best) (snd best)]> (pending_review st)
  /\ mappings st'' = <[cleaned := fst best]> (mappings st)
  /\ fst best ∈ standardized_entities st''
  /\ pending_review st'' !! cleaned = None
  /\ (forall st0 variant canonical,
        pending_review st0 !! variant = None ->
        approve_mapping variant canonical st0 = st0).
Proof.
  intros Hreach cleaned best Hsug Hauto.
  rewrite (normalize_matching st s Hreach). fold cleaned. cbv zeta. fold best.
  apply Qge_bool_false in Hauto. apply Qge_bool_true in Hsug.
  rewrite Hauto, Hsug. simpl.
  unfold approve_mapping. simpl. rewrite lookup_insert_eq. simpl.
  repeat split.
  - now apply elem_of_union_l, elem_of_singleton.
  - apply lookup_delete_eq.
  - intros st0 variant canonical Hnone. now rewrite Hnone.
Qed.

(** C5 (amended).  Let [s] pass the class validation and the empty/unknown
    test.  If the cleaned form of [s] is a key of the mapping table with
    value [c], every call [normalize(s)] returns [c]; if it is no key but a
    member of the standardized set, every call returns the cleaned form.
    In both cases the object is left exactly as it was, however often the
    call is repeated. *)
Theorem resolved_input_is_stable (st : Normalizer) (s : string) :
  is_invalid (kind st) s = false ->
  is_default_input s = false ->
  let cleaned := clean_entity (kind st) s in
  (forall c, mappings st !! cleaned = Some c ->
             normalize st s = (c, st)
             /\ forall n, run (replicate n (Normalize s)) st = st)
  /\ (mappings st !! cleaned = None ->
      cleaned ∈ standardized_entities st ->
      normalize st s = (cleaned, st)
      /\ forall n, run (replicate n (Normalize s)) st = st).
Proof.
  intros Hvalid Hdef cleaned.
  assert (Hrep : forall r, normalize st s = (r, st) ->
                 forall n, run (replicate n (Normalize s)) st = st).
  { intros r Hr n. induction n as [|n IH]; [reflexivity|].
    simpl. unfold run. simpl. now rewrite Hr. }
  split.
  - intros c Hc.
    assert (Hn : normalize st s = (c, st)).
    { unfold normalize, base_normalize. fold cleaned.
      now rewrite Hvalid, Hdef, Hc. }
    eauto.
  - intros Hnone Hin.
    assert (Hn : normalize st s = (cleaned, st)).
    { unfold normalize, base_normalize. fold cleaned.
      rewrite Hvalid, Hdef, Hnone. now rewrite bool_decide_eq_true_2. }
    eauto.
Qed.

End Resolution.

(** ** Sentence starters *)

Lemma cls_match_isspace (d : ascii) : cls_match true isspace d = isspace d.
Proof. destruct d as [[] [] [] [] [] [] [] []]; reflexivity. Qed.

(** Where the continuation of a literal resumes: at the start of the
    subject only if the literal was empty. *)
Lemma rmatch_lit (w : string) :
  forall (b : bool) (s : string) (k : bool -> string -> option string) (r : string),
    rmatch true (lit w) b s k = Some r <->
    exists p rest,
      s = p ++ rest /\ lower p = lower w
      /\ k (match w with EmptyString => b | _ => false end) rest = Some r.
Proof.
  induction w as [|c w IH]; intros b s k r; simpl.
  - split.
    + intros Hk. exists "", s. auto.
    + intros (p & rest & -> & Hp & Hk). destruct p; [exact Hk | discriminate].
  - destruct s as [|d s].
    + split; [discriminate|].
      intros (p & rest & Hs & Hp & _). destruct p; discriminate.
    + unfold chr_match. destruct (Ascii.eqb_spec (lower_char c) (lower_char d)) as [Hcd|Hcd].
      * rewrite IH. split.
        -- intros (p & rest & -> & Hp & Hk).
           exists (String d p), rest. simpl. rewrite Hp, Hcd.
           repeat split. now destruct w.
        -- intros (p & rest & Hs & Hp & Hk).
           destruct p as [|d' p]; [discriminate|].
           simpl in Hs, Hp. injection Hs as <- ->. injection Hp as _ Hp.
           exists p, rest. repeat split; [exact Hp|]. now destruct w.
      * split; [discriminate|].
        intros (p & rest & Hs & Hp & _).
        destruct p as [|d' p]; [discriminate|].
        simpl in Hs, Hp. injection Hs as <- _. injection Hp as Hp _.
        congruence.
Qed.

(** A pattern that begins with [^] can only match at position 0. *)
Lemma search_from_anchored_later (r : regex) (s : string) :
  search_from true (Seq Bol r) false s = false.
Proof. induction s as [|c s IH]; simpl; [reflexivity | exact IH]. Qed.

Lemma re_search_anchored (r : regex) (s : string) :
  re_search true (Seq Bol r) s = true <->
  exists rest, rmatch true r true s (fun _ rest => Some rest) = Some rest.
Proof.
  unfold re_search.
  assert (H : search_from true (Seq Bol r) true s
              = match rmatch true r true s (fun _ rest => Some rest) with
                | Some _ => true
                | None => false
                end).
  { destruct s as [|c s]; simpl; unfold match_here; simpl;
      destruct (rmatch _ _ _ _ _); try reflexivity.
    apply search_from_anchored_later. }
  rewrite H. destruct (rmatch _ _ _ _ _) as [rest|].
  - split; eauto.
  - split; [discriminate | intros [rest Hrest]; discriminate].
Qed.

(** What [re.search(r'^w\s', s, re.IGNORECASE)] accepts. *)
Lemma starter_pattern_spec (w s : string) :
  re_search true (starter_pattern w) s = true <->
  exists p c rest, s = p ++ String c rest /\ lower p = lower w /\ isspace c = true.
Proof.
  unfold starter_pattern. rewrite re_search_anchored. cbn [rmatch]. split.
  - intros (r & Hr). apply rmatch_lit in Hr as (p & rest & -> & Hp & Hk).
    destruct rest as [|c rest]; [discriminate Hk|].
    cbn [rmatch] in Hk. rewrite cls_match_isspace in Hk.
    destruct (isspace c) eqn:Hc; [|discriminate Hk]. eauto 6.
  - intros (p & c & rest & -> & Hp & Hc). exists rest.
    apply rmatch_lit. exists p, (String c rest).
    cbn [rmatch]. rewrite cls_match_isspace, Hc. auto.
Qed.

(** C7 (amended).  The sentence-starter patterns are searched with
    [re.IGNORECASE], like all exclusion patterns: a string matches one of
    them exactly when it begins with one of the listed starter words in
    any letter case, followed by a whitespace character; and every such
    string is rejected by the company validator. *)
Theorem sentence_starter_ignores_case (s : string) :
  (matches_sentence_starter s = true <->
   exists w p c rest,
     w ∈ sentence_starters /\ s = p ++ String c rest
     /\ lower p = lower w /\ isspace c = true)
  /\ (matches_sentence_starter s = true -> is_invalid_company s = true).
Proof.
  split.
  - unfold matches_sentence_starter. rewrite existsb_exists. split.
    + intros (pattern & Hin & Hm).
      apply in_map_iff in Hin as (w & <- & Hw).
      apply starter_pattern_spec in Hm as (p & c & rest & Hs & Hp & Hc).
      exists w, p, c, rest. split; [now apply list_elem_of_In|]. auto.
    + intros (w & p & c & rest & Hw & Hs & Hp & Hc).
      exists (starter_pattern w). split.
      * apply in_map. now apply list_elem_of_In.
      * apply starter_pattern_spec. exists p, c, rest. auto.
  - intros Hm. unfold is_invalid_company, matches_exclude_pattern, exclude_patterns.
    destruct (is_default_input s); [reflexivity|].
    rewrite existsb_app. unfold matches_sentence_starter in Hm. rewrite Hm.
    now rewrite orb_true_r.
Qed.

(** ** Saving the mappings *)

Lemma append_nil_r (s : string) : s ++ "" = s.
Proof.
  induction s as [|c s IH]; [reflexivity|].
  change (String c s ++ "") with (String c (s ++ "")). now rewrite IH.
Qed.

Lemma append_assoc (s t u : string) : (s ++ t) ++ u = s ++ (t ++ u).
Proof.
  induction s as [|c s IH]; [reflexivity|].
  change (String c ((s ++ t) ++ u) = String c (s ++ (t ++ u))). now rewrite IH.
Qed.

(** Writing the chunks to an open file: all of them when the budget allows,
    otherwise the ones that fit, and then the exception. *)
Lemma write_all_spec (chunks : list string) :
  forall (content : string) (budget : option nat) (out : list message),
    write_all chunks (mkWorld (Some content) budget out) =
    match budget with
    | None => (mkWorld (Some (content ++ join chunks)) None out, Some tt)
    | Some n =>
        if (length chunks <=? n)%nat then
          (mkWorld (Some (content ++ join chunks)) (Some (n - length chunks)) out,
           Some tt)
        else
          (mkWorld (Some (content ++ join (take n chunks))) (Some 0) out, None)
    end.
Proof.
  induction chunks as [|chunk rest IH]; intros content budget out.
  - simpl. unfold mret, io_ret. rewrite append_nil_r.
    destruct budget as [n|]; [|reflexivity].
    now rewrite Nat.sub_0_r.
  - cbn [write_all]. unfold mbind, io_bind, write, spend. cbn [io_budget disk stdout].
    destruct budget as [[|n]|].
    + simpl. now rewrite append_nil_r.
    + simpl. rewrite IH. simpl. now rewrite !append_assoc.
    + simpl. rewrite IH. now rewrite append_assoc.
Qed.

Section StoreFacts.

Variable set_iter : gset string -> list string.
Variable json_chunks : gmap string string -> list string -> list string.

Local Abbreviation save_mappings := (save_mappings set_iter json_chunks).

(** C8 (amended).  [save_mappings] only reads the object and never raises:
    every failure is caught and reported by a message.  If the file cannot
    be opened, the file is left as it was.  Once it has been opened for
    writing, its previous content is gone: a failure while the document is
    written leaves the chunks written so far, and only a run without failure
    leaves the complete document and reports success. *)
Theorem save_mappings_outcomes (st : Normalizer) (w : World) :
  let chunks := json_chunks (mappings st) (set_iter (standardized_entities st)) in
  let w' := fst (save_mappings st w) in
  snd (save_mappings st w) = Some tt
  /\ (io_budget w = Some 0 ->
      disk w' = disk w /\ stdout w' = (stdout w ++ [ErrorSaving])%list)
  /\ (forall n, io_budget w = Some (S n) -> n < length chunks ->
      disk w' = Some (join (take n chunks))
      /\ stdout w' = (stdout w ++ [ErrorSaving])%list)
  /\ (io_budget w = None \/ (exists n, io_budget w = Some (S n) /\ length chunks <= n) ->
      disk w' = Some (join chunks)
      /\ stdout w' = (stdout w ++ [Saved (size (mappings st))])%list).
Proof.
  intros chunks w'. subst w'. unfold save_mappings, try_except.
  fold chunks. clearbody chunks.
  destruct w as [d budget out]. cbn [io_budget disk stdout].
  unfold mbind, io_bind, open_w, spend. cbn [io_budget disk stdout].
  destruct budget as [[|n]|].
  - simpl. split; [reflexivity|]. split; [auto|]. split.
    + intros m Hm. discriminate Hm.
    + intros [Hb | (m & Hb & _)]; discriminate Hb.
  - rewrite write_all_spec. simpl.
    destruct (Nat.leb_spec (length chunks) n) as [Hle|Hlt]; simpl.
    + split; [reflexivity|]. split; [intros Hb; discriminate Hb|]. split.
      * intros m [= <-] Hm. lia.
      * intros _. auto.
    + split; [reflexivity|]. split; [intros Hb; discriminate Hb|]. split.
      * intros m [= <-] _. auto.
      * intros [Hb | (m & [= <-] & Hm)]; [discriminate Hb | lia].
  - rewrite write_all_spec. simpl.
    split; [reflexivity|]. split; [intros Hb; discriminate Hb|]. split.
    + intros m Hb. discriminate Hb.
    + intros _. auto.
Qed.

End StoreFacts.

(** * Examples *)

Lemma acme_store_values_standardized : values_standardized acme_store.
Proof. intros k v Hk. simpl in Hk. now rewrite lookup_empty in Hk. Qed.

Lemma sound_document_values_listed :
  forall k v, fst sound_document !! k = Some v -> v ∈ snd sound_document.
Proof.
  intros k v Hk. simpl in Hk.
  apply lookup_singleton_Some in Hk as [_ <-]. simpl. left.
Qed.

Lemma mapping_values_stay_standardized_witness :
  values_standardized acme_store
  /\ values_standardized (run Difflib.ratio elements session acme_store)
  /\ (forall k v, fst sound_document !! k = Some v -> v ∈ snd sound_document)
  /\ values_standardized
       (run Difflib.ratio elements session
          (construct Category DEFAULT_AUTO_THRESHOLD DEFAULT_SUGGEST_THRESHOLD
             (Some (fst sound_document, snd sound_document)))).
Proof.
  destruct (mapping_values_stay_standardized Difflib.ratio elements session)
    as (Hkeep & _ & _ & Hfile).
  split; [exact acme_store_values_standardized|].
  split; [exact (Hkeep acme_store acme_store_values_standardized)|].
  split; [exact sound_document_values_listed|].
  exact (Hfile Category DEFAULT_AUTO_THRESHOLD DEFAULT_SUGGEST_THRESHOLD
           (fst sound_document) (snd sound_document) sound_document_values_listed).
Defined.

(** C6, as stated, fails for a normaliser constructed on a mapping file
    with a dangling value: [__init__] always runs [load_mappings], which
    assigns the mapping table without looking at the standardized
    entities.  The value "Acme Corp" of the loaded table is no standardized
    entity right after construction, and still is none after a session of
    the four public operations. *)
Lemma dangling_file_counterexample :
  mappings dangling_loaded !! "AC" = Some "Acme Corp"
  /\ ("Acme Corp" ∉ standardized_entities dangling_loaded)
  /\ ~ values_standardized dangling_loaded
  /\ mappings (run Difflib.ratio elements session dangling_loaded) !! "AC"
     = Some "Acme Corp"
  /\ ("Acme Corp" ∉
       standardized_entities (run Difflib.ratio elements session dangling_loaded))
  /\ ~ values_standardized (run Difflib.ratio elements session dangling_loaded).
Proof.
  assert (H1 : mappings dangling_loaded !! "AC" = Some "Acme Corp") by reflexivity.
  assert (H2 : "Acme Corp" ∉ standardized_entities dangling_loaded).
  { apply (bool_decide_eq_false_1 _). vm_compute. reflexivity. }
  assert (H3 : mappings (run Difflib.ratio elements session dangling_loaded) !! "AC"
               = Some "Acme Corp") by (vm_compute; reflexivity).
  assert (H4 : "Acme Corp" ∉
               standardized_entities (run Difflib.ratio elements session dangling_loaded)).
  { apply (bool_decide_eq_false_1 _). vm_compute. reflexivity. }
  repeat split; try assumption.
  - intros Hinv. exact (H2 (Hinv _ _ H1)).
  - intros Hinv. exact (H4 (Hinv _ _ H3)).
Qed.

(** C1, as stated, fails when the input is the canonical entity itself:
    "Acme Co" scores 1 against the only standardized entity "Acme Co", yet
    [normalize] returns at the standardized-set test and adds no mapping. *)
Lemma canonical_input_counterexample :
  standardized_entities acme_store = {[ "Acme Co" ]}
  /\ (auto_threshold acme_store
      <= similarity Difflib.ratio (clean_entity (kind acme_store) "Acme Co") "Acme Co")%Q
  /\ normalize Difflib.ratio elements acme_store "Acme Co" = ("Acme Co", acme_store)
  /\ mappings acme_store !! "Acme Co" = None.
Proof.
  split; [reflexivity|].
  split; [apply Qle_by_computation; vm_compute; reflexivity|].
  split; [vm_compute; reflexivity | reflexivity].
Qed.

Lemma blusky_variant_reaches_matching :
  reaches_matching blusky_store "Blusky Restoration Contractors LLC".
Proof.
  unfold reaches_matching.
  replace (clean_entity (kind blusky_store) "Blusky Restoration Contractors LLC")
    with "Blusky Restoration Contractors" by (vm_compute; reflexivity).
  repeat split; try (vm_compute; reflexivity).
  simpl. rewrite elem_of_singleton. discriminate.
Qed.

Lemma zenith_reaches_matching : reaches_matching blusky_store "Zenith Builders".
Proof.
  unfold reaches_matching.
  replace (clean_entity (kind blusky_store) "Zenith Builders")
    with "Zenith Builders" by (vm_compute; reflexivity).
  repeat split; try (vm_compute; reflexivity).
  simpl. rewrite elem_of_singleton. discriminate.
Qed.

Lemma threshold_boundaries_witness :
  (normalize Difflib.ratio elements blusky_store
     "Blusky Restoration Contractors LLC").1 = blusky
  /\ mappings (normalize Difflib.ratio elements blusky_store
                 "Blusky Restoration Contractors LLC").2
     = <[clean_entity Company "Blusky Restoration Contractors LLC" := blusky]> ∅
  /\ (normalize Difflib.ratio elements blusky_store "Zenith Builders").1
     = clean_entity Company "Zenith Builders"
  /\ pending_review (normalize Difflib.ratio elements blusky_store "Zenith Builders").2
     = ∅.
Proof.
  destruct (threshold_boundaries Difflib.ratio elements
              (fun X => reflexivity (elements X))
              blusky_store "Blusky Restoration Contractors LLC" blusky
              eq_refl blusky_variant_reaches_matching) as [Hauto _].
  destruct (threshold_boundaries Difflib.ratio elements
              (fun X => reflexivity (elements X))
              blusky_store "Zenith Builders" blusky
              eq_refl zenith_reaches_matching) as [_ Hnew].
  destruct Hauto as (H1 & H2 & _).
  - reflexivity.
  - apply Qle_by_computation. vm_compute. reflexivity.
  - intros v Hv. simpl in Hv. rewrite map_img_empty_L in Hv.
    now apply elem_of_empty in Hv.
  - destruct Hnew as (H3 & _ & _ & H4).
    + vm_compute. reflexivity.
    + vm_compute. reflexivity.
    + repeat split; assumption.
Defined.

(** The remaining hypotheses of the amended C1 are needed as well.  A value
    of the mapping table that is not standardized can outscore [E]: "Acme
    Cor" scores 14/15 against "Acme Co" and 16/17 against "Acme Corp". *)
Lemma mapped_value_outranks_entity :
  (auto_threshold corp_store <= similarity Difflib.ratio "Acme Cor" "Acme Co")%Q
  /\ normalize Difflib.ratio elements corp_store "Acme Cor"
     = ("Acme Corp", add_mapping "Acme Cor" "Acme Corp" corp_store).
Proof.
  split; [apply Qle_by_computation; vm_compute; reflexivity|].
  vm_compute. reflexivity.
Qed.

(** With an auto-threshold of 0 a candidate that scores 0 never replaces the
    initial best match, which is the input itself. *)
Lemma zero_threshold_maps_input_to_itself :
  (auto_threshold zero_threshold_store <= similarity Difflib.ratio "xyz" "Acme Co")%Q
  /\ normalize Difflib.ratio elements zero_threshold_store "xyz"
     = ("xyz", add_mapping "xyz" "xyz" zero_threshold_store).
Proof.
  split; [apply Qle_by_computation; vm_compute; reflexivity|].
  vm_compute. reflexivity.
Qed.

(** C2, as stated, fails when the cleaned input is already a key of the
    mapping table: the best fuzzy match of "Acme" is "Acme Co" with score
    8/11, between the two thresholds, yet [normalize] returns the mapped
    value "Other Corp" and registers no pending review. *)
Lemma mapped_input_counterexample :
  find_best_match Difflib.ratio elements acme_mapped_store
    (clean_entity (kind acme_mapped_store) "Acme") = ("Acme Co", 8 # 11)
  /\ (suggest_threshold acme_mapped_store <= 8 # 11)%Q
  /\ (8 # 11 < auto_threshold acme_mapped_store)%Q
  /\ normalize Difflib.ratio elements acme_mapped_store "Acme"
     = ("Other Corp", acme_mapped_store)
  /\ pending_review acme_mapped_store !! "Acme" = None.
Proof.
  split; [vm_compute; reflexivity|].
  split; [apply Qle_by_computation; vm_compute; reflexivity|].
  split; [vm_compute; reflexivity|].
  split; [vm_compute; reflexivity | reflexivity].
Qed.

Lemma acme_reaches_matching : reaches_matching acme_store "Acme".
Proof.
  unfold reaches_matching.
  replace (clean_entity (kind acme_store) "Acme") with "Acme"
    by (vm_compute; reflexivity).
  repeat split; try (vm_compute; reflexivity).
  simpl. rewrite elem_of_singleton. discriminate.
Qed.

Lemma suggest_tier_round_trip_witness :
  (normalize Difflib.ratio elements acme_store "Acme").1
  = (find_best_match Difflib.ratio elements acme_store
       (clean_entity Category "Acme")).1
  /\ mappings (normalize Difflib.ratio elements acme_store "Acme").2 = ∅
  /\ pending_review
       (approve_mapping (clean_entity Category "Acme") None
          (normalize Difflib.ratio elements acme_store "Acme").2)
     !! clean_entity Category "Acme" = None.
Proof.
  destruct (suggest_tier_round_trip Difflib.ratio elements acme_store "Acme"
              acme_reaches_matching) as (H1 & H2 & _ & _ & _ & _ & H3 & _).
  - apply Qle_by_computation. vm_compute. reflexivity.
  - vm_compute. reflexivity.
  - repeat split; assumption.
Defined.

(** C5, as stated, fails for a canonical company name that ends in a legal
    suffix: the name is in the standardized set, but [normalize] looks up
    its cleaned form, which is not, and ends up adding a mapping from the
    cleaned form to the name. *)
Lemma canonical_company_counterexample :
  blusky ∈ standardized_entities blusky_store
  /\ mappings blusky_store = ∅
  /\ (normalize Difflib.ratio elements blusky_store blusky).1 = blusky
  /\ mappings (normalize Difflib.ratio elements blusky_store blusky).2
     = {[ "BluSky Restoration Contractors," := blusky ]}.
Proof.
  split; [simpl; now apply elem_of_singleton|].
  split; [reflexivity|].
  split; vm_compute; reflexivity.
Qed.

Lemma resolved_input_is_stable_witness :
  normalize Difflib.ratio elements holdings_store "Acme Inc"
  = ("Acme Holdings", holdings_store)
  /\ normalize Difflib.ratio elements holdings_store "Acme Holdings"
     = (clean_entity Company "Acme Holdings", holdings_store).
Proof.
  destruct (resolved_input_is_stable Difflib.ratio elements holdings_store
              "Acme Inc") as [Hmapped _];
    [vm_compute; reflexivity | vm_compute; reflexivity |].
  destruct (resolved_input_is_stable Difflib.ratio elements holdings_store
              "Acme Holdings") as [_ Hcanonical];
    [vm_compute; reflexivity | vm_compute; reflexivity |].
  split.
  - apply Hmapped. vm_compute. reflexivity.
  - apply Hcanonical; [vm_compute; reflexivity|].
    replace (clean_entity (kind holdings_store) "Acme Holdings")
      with "Acme Holdings" by (vm_compute; reflexivity).
    simpl. now apply elem_of_singleton.
Defined.

(** C7, as stated, fails on "THE Acme Group": no listed starter word is a
    prefix of it in the listed letter case, no other filter of the
    validator applies to it, and still the sentence-starter patterns match
    and the string is rejected. *)
Lemma uppercase_starter_counterexample :
  matches_sentence_starter "THE Acme Group" = true
  /\ is_invalid_company "THE Acme Group" = true
  /\ existsb (fun w => String.prefix w "THE Acme Group") sentence_starters = false
  /\ existsb (fun pattern => re_search true pattern "THE Acme Group")
       [ uuid_pattern; numeric_pattern; numeric_dots_pattern; html_pattern;
         vocabulary_pattern ] = false
  /\ is_default_input "THE Acme Group" = false
  /\ (String.length "THE Acme Group" <=? 50)%nat = true
  /\ (count_words false "THE Acme Group" <=? 8)%nat = true.
Proof. repeat split; vm_compute; reflexivity. Qed.

Lemma sentence_starter_ignores_case_witness :
  matches_sentence_starter "tHiS is broken" = true
  /\ is_invalid_company "tHiS is broken" = true.
Proof.
  destruct (sentence_starter_ignores_case "tHiS is broken") as [Hiff Hrej].
  assert (Hm : matches_sentence_starter "tHiS is broken" = true).
  { apply Hiff. exists "This", "tHiS", " "%char, "is broken".
    repeat split. unfold sentence_starters. repeat constructor. }
  split; [exact Hm | exact (Hrej Hm)].
Defined.

(** C8, as stated, fails when writing fails after the file was opened: the
    previous content is lost.  If the first write fails the file is left
    empty; if the fourth one fails it holds the beginning of the document. *)
Lemma truncated_file_counterexample :
  disk (failing_after 1) = Some "old"
  /\ save_mappings elements json_chunks_of_empty (store Category ∅ ∅ ∅) (failing_after 1)
     = (mkWorld (Some "") (Some 0) [ErrorSaving], Some tt)
  /\ disk (save_mappings elements json_chunks_of_empty (store Category ∅ ∅ ∅)
             (failing_after 4)).1
     = Some ("{" ++ newline ++ "  " ++ quote ++ "mappings" ++ quote).
Proof. repeat split. Qed.

Lemma save_mappings_outcomes_witness :
  io_budget (failing_after 0) = Some 0
  /\ disk (save_mappings elements json_chunks_of_empty (store Category ∅ ∅ ∅)
             (failing_after 0)).1
     = disk (failing_after 0).
Proof.
  split; [reflexivity|].
  destruct (save_mappings_outcomes elements json_chunks_of_empty
              (store Category ∅ ∅ ∅) (failing_after 0)) as (_ & Hopen & _ & _).
  now apply Hopen.
Defined.

(** * Further properties of the engine *)

Section BestMatch.

Variable ratio : string -> string -> Q.
Variable set_iter : gset string -> list string.

Local Abbreviation similarity := (similarity ratio).
Local Abbreviation keep_better := (keep_better ratio).
Local Abbreviation find_best_match := (find_best_match ratio set_iter).
Local Abbreviation normalize := (normalize ratio set_iter).

(** The loop of [find_best_match] never lowers the best score, ends above
    every candidate it has seen, and ends either where it began or on a
    candidate with that candidate's score. *)
Lemma foldl_keep_better_spec (entity : string) (l : list string) :
  forall best : string * Q,
    let r := foldl (keep_better entity) best l in
    (snd best <= snd r)%Q
    /\ (forall v, v ∈ l -> (similarity entity v <= snd r)%Q)
    /\ (r = best
        \/ (fst r ∈ l /\ snd r = similarity entity (fst r) /\ (snd best < snd r)%Q)).
Proof.
  induction l as [|v l IH]; intros best; cbn zeta.
  - simpl. split; [apply Qle_refl|]. split; [|now left].
    intros v Hv. now apply elem_of_nil in Hv.
  - cbn [foldl]. destruct (IH (keep_better entity best v)) as (Hmono & Hbound & Hshape).
    assert (Hstep : (snd best <= snd (keep_better entity best v))%Q
                    /\ (similarity entity v <= snd (keep_better entity best v))%Q
                    /\ (keep_better entity best v = best
                        \/ (keep_better entity best v = (v, similarity entity v)
                            /\ (snd best < similarity entity v)%Q))).
    { unfold keep_better. destruct (Qgt_bool _ _) eqn:Hgt.
      - apply Qgt_bool_true in Hgt. simpl.
        split; [now apply Qlt_le_weak|]. split; [apply Qle_refl | auto].
      - split; [apply Qle_refl|]. split; [|now left].
        apply Qnot_lt_le. intros Hlt. apply Qgt_bool_true in Hlt. congruence. }
    destruct Hstep as (Hs1 & Hs2 & Hs3).
    split; [eapply Qle_trans; eassumption|]. split.
    + intros w [-> | Hw]%elem_of_cons; [eapply Qle_trans; eassumption | auto].
    + destruct Hshape as [Hr | (Hin & Hsc & Hlt)].
      * destruct Hs3 as [Hb | [Hb Hlt]]; [left; congruence|].
        right. rewrite Hr, Hb. simpl. split; [left | auto].
      * right. split; [now right|]. split; [exact Hsc|].
        eapply Qle_lt_trans; eassumption.
Qed.

Lemma find_best_match_fold (st : Normalizer) (entity : string) :
  find_best_match st entity
  = foldl (keep_better entity) (entity, 0%Q)
      (set_iter (standardized_entities st) ++ set_iter (map_img (mappings st)))%list.
Proof. unfold find_best_match. now rewrite foldl_app. Qed.

(** [normalize] repeated on the same input: the second call returns what
    the first returned and changes nothing more. *)
Theorem normalize_twice (st : Normalizer) (s : string) :
  normalize (snd (normalize st s)) s = (fst (normalize st s), snd (normalize st s)).
Proof.
  unfold normalize, base_normalize.
  destruct (is_invalid (kind st) s) eqn:Hinv; simpl; [now rewrite Hinv|].
  destruct (is_default_input s) eqn:Hdef; simpl; [now rewrite Hinv|].
  destruct (mappings st !! clean_entity (kind st) s) as [c|] eqn:Hmap; simpl.
  { now rewrite Hinv, Hmap. }
  case_bool_decide as Hstd; simpl.
  { rewrite Hinv, Hmap. now rewrite bool_decide_eq_true_2. }
  destruct (Qge_bool _ (auto_threshold st)) eqn:Hauto; simpl.
  { rewrite Hinv. now rewrite lookup_insert_eq. }
  destruct (Qge_bool _ (suggest_threshold st)) eqn:Hsug; simpl.
  - rewrite Hinv, Hmap. rewrite bool_decide_eq_false_2 by exact Hstd.
    change (find_best_match
              (with_stores st (mappings st) (standardized_entities st)
                 (<[clean_entity (kind st) s :=
                      mkReview (fst (find_best_match st (clean_entity (kind st) s)))
                               (snd (find_best_match st (clean_entity (kind st) s)))]>
                    (pending_review st)))
              (clean_entity (kind st) s))
      with (find_best_match st (clean_entity (kind st) s)).
    rewrite Hauto, Hsug. unfold with_stores. simpl. now rewrite insert_insert_eq.
  - rewrite Hinv, Hmap. rewrite bool_decide_eq_true_2; [reflexivity|].
    now apply elem_of_union_l, elem_of_singleton.
Qed.

Hypothesis set_iter_perm : forall X : gset string, set_iter X ≡ₚ elements X.

Lemma elem_of_candidates (st : Normalizer) (v : string) :
  v ∈ (set_iter (standardized_entities st) ++ set_iter (map_img (mappings st)))%list
  <-> v ∈ standardized_entities st \/ (exists k, mappings st !! k = Some v).
Proof.
  rewrite elem_of_app, !set_iter_perm, !elem_of_elements, elem_of_map_img.
  reflexivity.
Qed.

(** The score that [find_best_match] returns is never negative, also when
    there is no candidate at all, and no standardized entity and no value
    of the mapping table scores above it. *)
Theorem find_best_match_upper_bound (st : Normalizer) (entity : string) :
  (0 <= snd (find_best_match st entity))%Q
  /\ forall v,
       v ∈ standardized_entities st \/ (exists k, mappings st !! k = Some v) ->
       (similarity entity v <= snd (find_best_match st entity))%Q.
Proof.
  rewrite find_best_match_fold.
  destruct (foldl_keep_better_spec entity
              (set_iter (standardized_entities st) ++ set_iter (map_img (mappings st)))%list
              (entity, 0%Q)) as (Hmono & Hbound & _).
  split; [exact Hmono|].
  intros v Hv. apply Hbound. now apply elem_of_candidates.
Qed.


End BestMatch.

Section Outcomes.

Variable ratio : string -> string -> Q.
Variable set_iter : gset string -> list string.

Local Abbreviation similarity := (similarity ratio).
Local Abbreviation find_best_match := (find_best_match ratio set_iter).
Local Abbreviation normalize := (normalize ratio set_iter).
Local Abbreviation exec := (exec ratio set_iter).
Local Abbreviation run := (run ratio set_iter).

(** The six ways in which a call of [normalize] can end. *)
Lemma normalize_outcomes (st : Normalizer) (s : string) :
  let cleaned := clean_entity (kind st) s in
  let best := find_best_match st cleaned in
  normalize st s = (get_default_entity (kind st), st)
  \/ (exists c, mappings st !! cleaned = Some c /\ normalize st s = (c, st))
  \/ (cleaned ∈ standardized_entities st /\ normalize st s = (cleaned, st))
  \/ (normalize st s = (fst best, add_mapping cleaned (fst best) st))
  \/ (mappings st !! cleaned = None
      /\ (suggest_threshold st <= snd best)%Q /\ (snd best < auto_threshold st)%Q
      /\ normalize st s
         = (fst best,
            with_stores st (mappings st) (standardized_entities st)
              (<[cleaned := mkReview (fst best) (snd best)]> (pending_review st))))
  \/ (normalize st s = (cleaned, add_standardized_entity cleaned st)).
Proof.
  intros cleaned best. unfold normalize, base_normalize. fold cleaned. fold best.
  destruct (is_invalid (kind st) s); [now left|].
  destruct (is_default_input s); [now left|].
  destruct (mappings st !! cleaned) as [c|] eqn:Hmap; [right; left; eauto|].
  case_bool_decide as Hstd; [right; right; left; auto|].
  destruct (Qge_bool (snd best) (auto_threshold st)) eqn:Hauto;
    [right; right; right; left; reflexivity|].
  destruct (Qge_bool (snd best) (suggest_threshold st)) eqn:Hsug.
  - right; right; right; right; left.
    apply Qge_bool_false in Hauto. apply Qge_bool_true in Hsug. auto.
  - now repeat right.
Qed.

Lemma add_mapping_pending_unmapped (c b : string) (st : Normalizer) :
  pending_unmapped st -> pending_unmapped (add_mapping c b st).
Proof.
  intros Hinv k. simpl. destruct (decide (c = k)) as [->|Hne].
  - rewrite lookup_delete_eq. now intros [? ?].
  - rewrite lookup_delete_ne, lookup_insert_ne by exact Hne. apply Hinv.
Qed.

Lemma exec_pending_unmapped (st : Normalizer) (op : operation) :
  pending_unmapped st -> pending_unmapped (exec st op).
Proof.
  intros Hinv.
  destruct op as [entity|entity standardized|entity standardized|entity]; simpl.
  - destruct (normalize_outcomes st entity)
      as [-> | [(c & _ & ->) | [(_ & ->) | [-> | [(Hnone & _ & _ & ->) | ->]]]]];
      simpl; try exact Hinv.
    + now apply add_mapping_pending_unmapped.
    + intros k. simpl. destruct (decide (clean_entity (kind st) entity = k)) as [<-|Hne].
      * intros _. exact Hnone.
      * rewrite lookup_insert_ne by exact Hne. apply Hinv.
  - unfold approve_mapping. destruct (pending_review st !! entity);
      [now apply add_mapping_pending_unmapped | exact Hinv].
  - now apply add_mapping_pending_unmapped.
  - exact Hinv.
Qed.

Lemma add_mapping_pending_in_band (c b : string) (st : Normalizer) :
  pending_in_band st -> pending_in_band (add_mapping c b st).
Proof.
  intros Hinv k r. simpl. intros Hk.
  apply lookup_delete_Some in Hk as [_ Hk]. now apply (Hinv k).
Qed.

Lemma exec_pending_in_band (st : Normalizer) (op : operation) :
  pending_in_band st -> pending_in_band (exec st op).
Proof.
  intros Hinv.
  destruct op as [entity|entity standardized|entity standardized|entity]; simpl.
  - destruct (normalize_outcomes st entity)
      as [-> | [(c & _ & ->) | [(_ & ->) | [-> | [(_ & Hlo & Hhi & ->) | ->]]]]];
      simpl; try exact Hinv.
    + now apply add_mapping_pending_in_band.
    + intros k r. simpl.
      destruct (decide (clean_entity (kind st) entity = k)) as [<-|Hne].
      * rewrite lookup_insert_eq. intros [= <-]. simpl. auto.
      * rewrite lookup_insert_ne by exact Hne. apply Hinv.
  - unfold approve_mapping. destruct (pending_review st !! entity);
      [now apply add_mapping_pending_in_band | exact Hinv].
  - now apply add_mapping_pending_in_band.
  - exact Hinv.
Qed.

(** A variant never has a pending review and a mapping at the same time:
    this holds in every state that the four operations reach from a freshly
    constructed normaliser, and they keep it in any store that has it. *)
Theorem pending_reviews_stay_unmapped (ops : list operation) :
  (forall c auto suggest, pending_unmapped (run ops (new_normalizer c auto suggest)))
  /\ (forall st, pending_unmapped st -> pending_unmapped (run ops st)).
Proof.
  assert (Hstep : forall st, pending_unmapped st -> pending_unmapped (run ops st)).
  { induction ops as [|op ops IH]; intros st Hinv; [exact Hinv|].
    change (run (op :: ops) st) with (run ops (exec st op)).
    apply IH. now apply exec_pending_unmapped. }
  split; [|exact Hstep].
  intros c auto suggest. apply Hstep. intros k [r Hr]. simpl in Hr.
  now rewrite lookup_empty in Hr.
Qed.

(** The score kept with a pending review is at least the suggest-threshold
    and strictly below the auto-threshold: this holds in every state that
    the four operations reach from a freshly constructed normaliser, and
    they keep it in any store that has it. *)
Theorem pending_scores_stay_in_band (ops : list operation) :
  (forall c auto suggest, pending_in_band (run ops (new_normalizer c auto suggest)))
  /\ (forall st, pending_in_band st -> pending_in_band (run ops st)).
Proof.
  assert (Hstep : forall st, pending_in_band st -> pending_in_band (run ops st)).
  { induction ops as [|op ops IH]; intros st Hinv; [exact Hinv|].
    change (run (op :: ops) st) with (run ops (exec st op)).
    apply IH. now apply exec_pending_in_band. }
  split; [|exact Hstep].
  intros c auto suggest. apply Hstep. intros k r Hr. simpl in Hr.
  now rewrite lookup_empty in Hr.
Qed.

(** Once a pending review has been approved, with or without a canonical
    form given by the reviewer, every input that cleans to the approved
    variant resolves to the approved canonical form and the object is left
    alone; the same holds right after [add_mapping]. *)
Theorem approved_mapping_is_used (st : Normalizer) (variant s : string)
    (review : Review) (canonical : option string) :
  pending_review st !! variant = Some review ->
  is_invalid (kind st) s = false ->
  is_default_input s = false ->
  clean_entity (kind st) s = variant ->
  normalize (approve_mapping variant canonical st) s
  = (default (suggested review) canonical, approve_mapping variant canonical st)
  /\ pending_review (approve_mapping variant canonical st) !! variant = None
  /\ forall c, normalize (add_mapping variant c st) s = (c, add_mapping variant c st).
Proof.
  intros Hpending Hvalid Hdef Hclean.
  assert (Hadd : forall c, normalize (add_mapping variant c st) s
                           = (c, add_mapping variant c st)).
  { intros c. unfold normalize, base_normalize. simpl.
    rewrite Hvalid, Hdef, Hclean. now rewrite lookup_insert_eq. }
  unfold approve_mapping. rewrite Hpending.
  split; [apply Hadd|]. split; [|exact Hadd].
  simpl. apply lookup_delete_eq.
Qed.

(** Rejecting a suggestion in the review tool calls
    [add_standardized_entity] on the variant: from then on every input that
    cleans to the variant resolves to the variant itself, and the pending
    review stays where it was. *)
Theorem rejected_variant_is_canonical (st : Normalizer) (variant s : string)
    (review : Review) :
  pending_review st !! variant = Some review ->
  mappings st !! variant = None ->
  is_invalid (kind st) s = false ->
  is_default_input s = false ->
  clean_entity (kind st) s = variant ->
  normalize (add_standardized_entity variant st) s
  = (variant, add_standardized_entity variant st)
  /\ pending_review (add_standardized_entity variant st) !! variant = Some review.
Proof.
  intros Hpending Hnone Hvalid Hdef Hclean. split; [|exact Hpending].
  unfold normalize, base_normalize. simpl.
  rewrite Hvalid, Hdef, Hclean, Hnone.
  rewrite bool_decide_eq_true_2; [reflexivity|].
  now apply elem_of_union_l, elem_of_singleton.
Qed.

Hypothesis set_iter_perm : forall X : gset string, set_iter X ≡ₚ elements X.

(** In a store whose mapped values are all standardized, and with a
    positive suggest-threshold, [normalize] only ever returns the default
    of the class or a string that is a standardized entity once the call
    is over. *)
Theorem normalize_returns_canonical (st : Normalizer) (s : string) :
  values_standardized st ->
  (0 < suggest_threshold st)%Q ->
  fst (normalize st s) = get_default_entity (kind st)
  \/ fst (normalize st s) ∈ standardized_entities (snd (normalize st s)).
Proof.
  intros Hinv Hpos.
  destruct (normalize_outcomes st s)
    as [-> | [(c & Hc & ->) | [(Hstd & ->) | [-> | [(_ & Hlo & _ & ->) | ->]]]]];
    simpl; auto.
  - right. now apply (Hinv _ _ Hc).
  - right. now apply elem_of_union_l, elem_of_singleton.
  - right. set (cleaned := clean_entity (kind st) s) in *.
    rewrite (find_best_match_fold ratio set_iter) in *.
    destruct (foldl_keep_better_spec ratio cleaned
                (set_iter (standardized_entities st)
                   ++ set_iter (map_img (mappings st)))%list (cleaned, 0%Q))
      as (_ & _ & [Heq | (Hin & _ & _)]).
    + rewrite Heq in Hlo. simpl in Hlo. exfalso.
      eapply Qlt_irrefl, Qlt_le_trans; eassumption.
    + apply (elem_of_candidates set_iter set_iter_perm) in Hin as [Hin | [k Hk]];
        [exact Hin | now apply (Hinv k)].
  - right. now apply elem_of_union_l, elem_of_singleton.
Qed.

(** On a normaliser whose stores are empty and whose thresholds are
    positive, every input that passes the validation becomes a standardized
    entity in its cleaned form, and nothing else changes. *)
Theorem first_entity_becomes_canonical (st : Normalizer) (s : string) :
  mappings st = ∅ ->
  standardized_entities st = ∅ ->
  (0 < auto_threshold st)%Q ->
  (0 < suggest_threshold st)%Q ->
  is_invalid (kind st) s = false ->
  is_default_input s = false ->
  normalize st s
  = (clean_entity (kind st) s,
     add_standardized_entity (clean_entity (kind st) s) st).
Proof.
  intros Hm He Hauto Hsug Hvalid Hdef.
  assert (Hbest : find_best_match st (clean_entity (kind st) s)
                  = (clean_entity (kind st) s, 0%Q)).
  { unfold find_best_match. rewrite Hm, He, map_img_empty_L.
    assert (Hnil : set_iter ∅ = []).
    { apply Permutation_nil_r. rewrite set_iter_perm. now rewrite elements_empty. }
    now rewrite Hnil. }
  unfold normalize, base_normalize. rewrite Hvalid, Hdef, Hm, lookup_empty, He.
  rewrite bool_decide_eq_false_2 by apply not_elem_of_empty.
  rewrite Hbest. simpl.
  apply Qge_bool_false in Hauto, Hsug. now rewrite Hauto, Hsug.
Qed.

End Outcomes.

(** * The remaining methods and the callers *)

Section CallerFacts.

Variable ratio : string -> string -> Q.
Variable set_iter : gset string -> list string.

Local Abbreviation normalize := (normalize ratio set_iter).
Local Abbreviation normalize_field := (normalize_field ratio set_iter).
Local Abbreviation normalize_email_data := (normalize_email_data ratio set_iter).
Local Abbreviation normalize_all := (normalize_all ratio set_iter).
Local Abbreviation changes_made := (changes_made ratio set_iter).

Lemma normalize_field_spec (key : string) (n : Normalizer) (data : gmap string string) :
  dom (fst (normalize_field key n data)) = dom data
  /\ (forall k, k <> key -> fst (normalize_field key n data) !! k = data !! k)
  /\ (data !! key = None \/ data !! key = Some "" ->
      normalize_field key n data = (data, n))
  /\ (forall v, data !! key = Some v -> v <> "" ->
      normalize_field key n data
      = (<[key := fst (normalize n v)]> data, snd (normalize n v))).
Proof.
  unfold normalize_field. destruct (data !! key) as [v|] eqn:Hv.
  - destruct (String.eqb_spec v "") as [->|Hne]; simpl.
    + split; [reflexivity|]. split; [reflexivity|]. split; [reflexivity|].
      intros v [= <-] Hne. contradiction.
    + split; [|split; [|split]].
      * apply dom_insert_lookup_L. eauto.
      * intros k Hk. now rewrite lookup_insert_ne.
      * intros [H | [= H]]; [discriminate | contradiction].
      * now intros v' [= <-] _.
  - simpl. split; [reflexivity|]. split; [reflexivity|]. split; [reflexivity|].
    intros v H. discriminate H.
Qed.

(** [normalize_email_data] keeps the keys of the record and every field
    other than the company name, the support category and the subject
    template.  Each of these three goes to its own normaliser: a field that
    is absent or empty stays as it is and leaves its normaliser alone, any
    other value is replaced by what that normaliser returns for it. *)
Theorem normalize_email_data_fields (ns : Normalizers) (data : gmap string string) :
  let result := fst (normalize_email_data ns data) in
  let ns' := snd (normalize_email_data ns data) in
  let field key now before after :=
    (data !! key = None \/ data !! key = Some "" ->
     result !! key = data !! key /\ after = before)
    /\ (forall v, data !! key = Some v -> v <> "" ->
        result !! key = Some (fst (now v)) /\ after = snd (now v)) in
  dom result = dom data
  /\ (forall k, k <> "company_name" -> k <> "support_category" ->
                k <> "subject_template" -> result !! k = data !! k)
  /\ field "company_name" (normalize (company_normalizer ns))
       (company_normalizer ns) (company_normalizer ns')
  /\ field "support_category" (normalize (category_normalizer ns))
       (category_normalizer ns) (category_normalizer ns')
  /\ field "subject_template" (normalize (template_normalizer ns))
       (template_normalizer ns) (template_normalizer ns').
Proof.
  cbv zeta. unfold normalize_email_data. cbn [fst snd company_normalizer
    category_normalizer template_normalizer].
  set (n1 := company_normalizer ns). set (n2 := category_normalizer ns).
  set (n3 := template_normalizer ns).
  set (d1 := fst (normalize_field "company_name" n1 data)).
  set (d2 := fst (normalize_field "support_category" n2 d1)).
  destruct (normalize_field_spec "company_name" n1 data) as (D1 & O1 & E1 & V1).
  destruct (normalize_field_spec "support_category" n2 d1) as (D2 & O2 & E2 & V2).
  destruct (normalize_field_spec "subject_template" n3 d2) as (D3 & O3 & E3 & V3).
  fold d1 in D1, O1. fold d2 in D2, O2, D3, O3.
  assert (K12 : d1 !! "support_category" = data !! "support_category")
    by (apply O1; discriminate).
  assert (K13 : d2 !! "subject_template" = data !! "subject_template")
    by (rewrite O2 by discriminate; apply O1; discriminate).
  split; [congruence|]. split; [|split; [|split]].
  - intros k H1 H2 H3. rewrite O3, O2, O1 by assumption. reflexivity.
  - split.
    + intros H. rewrite O3, O2 by discriminate. fold d1.
      unfold d1. now rewrite (E1 H).
    + intros v Hv Hne. rewrite O3, O2 by discriminate.
      unfold d1. rewrite (V1 v Hv Hne). simpl. now rewrite lookup_insert_eq.
  - split.
    + intros H. rewrite <- K12 in H. rewrite O3 by discriminate.
      unfold d2. now rewrite (E2 H).
    + intros v Hv Hne. rewrite <- K12 in Hv. rewrite O3 by discriminate.
      unfold d2. rewrite (V2 v Hv Hne). simpl. now rewrite lookup_insert_eq.
  - split.
    + intros H. rewrite <- K13 in H. now rewrite (E3 H).
    + intros v Hv Hne. rewrite <- K13 in Hv.
      rewrite (V3 v Hv Hne). simpl. now rewrite lookup_insert_eq.
Qed.

Lemma normalize_grows (st : Normalizer) (entity : string) :
  dom (mappings st) ⊆ dom (mappings (snd (normalize st entity))).
Proof.
  destruct (normalize_state_cases ratio set_iter st entity)
    as [H | [(c & b & H) | [(p & H) | (c & H)]]]; rewrite H;
    [reflexivity | apply (add_mapping_grows ratio) | reflexivity | reflexivity].
Qed.

Lemma normalize_list_grows (l : list string) :
  forall st, dom (mappings st)
             ⊆ dom (mappings (foldl (fun st' e => snd (normalize st' e)) st l)).
Proof.
  induction l as [|e l IH]; intros st; [done|].
  simpl. etrans; [apply normalize_grows | apply IH].
Qed.

(** The flag [changes_made] of the refresh script is raised by a batch of
    entities exactly when the batch has put a new key into the mapping
    table; new standardized entities and new pending reviews alone do not
    raise it. *)
Theorem changes_made_iff_new_mapping (st : Normalizer) (entities : gset string) :
  changes_made st entities = true
  <-> exists k, mappings st !! k = None
                /\ is_Some (mappings (normalize_all st entities) !! k).
Proof.
  unfold changes_made.
  pose proof (normalize_list_grows (set_iter entities) st) as Hsub.
  fold (normalize_all st entities) in Hsub.
  rewrite Nat.ltb_lt, <- !size_dom. split.
  - intros Hlt.
    destruct (set_choose_or_empty
                (dom (mappings (normalize_all st entities)) ∖ dom (mappings st)))
      as [[k Hk] | Hempty].
    + apply elem_of_difference in Hk as [Hin Hout]. exists k.
      split; [now apply not_elem_of_dom | now apply elem_of_dom].
    + assert (Hback : dom (mappings (normalize_all st entities)) ⊆ dom (mappings st)).
      { intros k Hk. destruct (decide (k ∈ dom (mappings st))) as [|Hout]; [assumption|].
        exfalso. apply (not_elem_of_empty (C:=gset string) k).
        rewrite <- Hempty. now apply elem_of_difference. }
      apply subseteq_size in Hback. lia.
  - intros (k & Hnone & Hsome). apply subset_size. split; [exact Hsub|].
    intros Hback. apply not_elem_of_dom in Hnone. apply Hnone, Hback.
    now apply elem_of_dom.
Qed.

End CallerFacts.

(** [get_all_standardized] lists every standardized entity exactly once, in
    ascending order, and the list does not depend on the order in which the
    set happens to be iterated. *)
Theorem get_all_standardized_sorted (iter1 iter2 : gset string -> list string)
    (st : Normalizer) :
  (forall X : gset string, iter1 X ≡ₚ elements X) ->
  (forall X : gset string, iter2 X ≡ₚ elements X) ->
  get_all_standardized iter1 st = get_all_standardized iter2 st
  /\ Sorted String.le (get_all_standardized iter1 st)
  /\ NoDup (get_all_standardized iter1 st)
  /\ forall x, x ∈ get_all_standardized iter1 st <-> x ∈ standardized_entities st.
Proof.
  intros H1 H2. unfold get_all_standardized.
  assert (Hp1 : merge_sort String.le (iter1 (standardized_entities st))
                ≡ₚ elements (standardized_entities st))
    by (rewrite merge_sort_Permutation; apply H1).
  assert (Hp2 : merge_sort String.le (iter2 (standardized_entities st))
                ≡ₚ elements (standardized_entities st))
    by (rewrite merge_sort_Permutation; apply H2).
  split; [|split; [|split]].
  - apply (Sorted_unique String.le); try apply Sorted_merge_sort; try apply _.
    now rewrite Hp1, Hp2.
  - apply Sorted_merge_sort. apply _.
  - rewrite Hp1. apply NoDup_elements.
  - intros x. rewrite Hp1. apply elem_of_elements.
Qed.


(** * Further properties of the validators *)

Lemma known_companies_are_short :
  forall c, c ∈ known_companies ->
    (String.length c <= 50)%nat /\ (count_words false c <= 8)%nat.
Proof.
  assert (H : forallb (fun c => (String.length c <=? 50)%nat
                                && (count_words false c <=? 8)%nat)
                known_companies = true) by (vm_compute; reflexivity).
  intros c Hc. apply list_elem_of_In in Hc.
  rewrite forallb_forall in H. apply H in Hc.
  apply andb_prop in Hc as [H1 H2].
  split; now apply Nat.leb_le.
Qed.

(** Whatever the company validator accepts is no empty/unknown input,
    matches no exclusion pattern, has at most 50 characters and at most 8
    words; the names of the allow-list are within these bounds too. *)
Theorem accepted_company_is_short (s : string) :
  is_invalid_company s = false ->
  is_default_input s = false
  /\ matches_exclude_pattern s = false
  /\ (String.length s <= 50)%nat
  /\ (count_words false s <= 8)%nat.
Proof.
  unfold is_invalid_company.
  destruct (is_default_input s); [discriminate|].
  destruct (matches_exclude_pattern s); [discriminate|].
  case_bool_decide as Hknown.
  - intros _. destruct (known_companies_are_short s Hknown). auto.
  - destruct (50 <? String.length s)%nat eqn:Hlen; [discriminate|].
    destruct (8 <? count_words false s)%nat eqn:Hwords; [discriminate|].
    intros _. apply Nat.ltb_ge in Hlen, Hwords. auto.
Qed.

(** The check made on a company cell when entities are extracted from the
    index page accepts everything that the company validator accepts, and
    outside the allow-list and the empty/unknown inputs the two checks give
    the same verdict. *)
Theorem index_validator_agrees (company : string) :
  (is_invalid_company company = false -> index_company_is_valid company = true)
  /\ (is_default_input company = false ->
      company ∉ known_companies ->
      index_company_is_valid company = negb (is_invalid_company company)).
Proof.
  unfold index_company_is_valid, is_invalid_company. split.
  - destruct (is_default_input company); [discriminate|].
    destruct (matches_exclude_pattern company); [discriminate|].
    case_bool_decide as Hknown.
    + intros _. destruct (known_companies_are_short company Hknown) as [Hl Hw].
      apply Nat.ltb_ge in Hl, Hw. now rewrite Hl, Hw.
    + destruct (50 <? String.length company)%nat; [discriminate|].
      now destruct (8 <? count_words false company)%nat.
  - intros -> Hunknown. rewrite bool_decide_eq_false_2 by exact Hunknown.
    destruct (matches_exclude_pattern company); simpl.
    + destruct (50 <? String.length company)%nat;
        now destruct (8 <? count_words false company)%nat.
    + destruct (50 <? String.length company)%nat;
        now destruct (8 <? count_words false company)%nat.
Qed.

(** In the check made on the index page the allow-list is consulted after
    the exclusion patterns and overrides them: every known company is
    accepted there. *)
Theorem index_validator_accepts_known (company : string) :
  company ∈ known_companies -> index_company_is_valid company = true.
Proof.
  intros Hknown. unfold index_company_is_valid.
  rewrite bool_decide_eq_true_2 by exact Hknown.
  destruct (known_companies_are_short company Hknown) as [Hl Hw].
  apply Nat.ltb_ge in Hl, Hw. now rewrite Hl, Hw.
Qed.

(** A match found further to the right is found by [re.search]. *)
Lemma search_from_later (ic : bool) (r : regex) (t : string) :
  (forall b, is_Some (match_here ic r b t)) ->
  forall p b, search_from ic r b (p ++ t) = true.
Proof.
  intros Hm p. induction p as [|c p IH]; intros b.
  - change ("" ++ t) with t. destruct (Hm b) as [x Hx].
    destruct t; simpl; now rewrite Hx.
  - change (String c p ++ t) with (String c (p ++ t)). simpl.
    destruct (match_here ic r b (String c (p ++ t))); [reflexivity | apply IH].
Qed.

(** An alternation matches where one of its branches does. *)
Lemma rmatch_alt_of (ic : bool) (rs : list regex) (r : regex) (b : bool)
    (s : string) (k : bool -> string -> option string) :
  In r rs -> is_Some (rmatch ic r b s k) -> is_Some (rmatch ic (alt_of rs) b s k).
Proof.
  induction rs as [|r0 rs IH]; intros Hin Hr; [destruct Hin|].
  destruct rs as [|r1 rs].
  - destruct Hin as [-> | []]. exact Hr.
  - change (alt_of (r0 :: r1 :: rs)) with (Alt r0 (alt_of (r1 :: rs))).
    cbn [rmatch]. destruct (rmatch ic r0 b s k) eqn:H0; [eauto|].
    destruct Hin as [-> | Hin]; [rewrite H0 in Hr; now destruct Hr|].
    now apply IH.
Qed.

Lemma lower_app_split (w : string) :
  forall t rest, lower t = w ++ rest ->
                 exists p r, t = p ++ r /\ lower p = w.
Proof.
  induction w as [|c w IH]; intros t rest Ht.
  - exists "", t. auto.
  - destruct t as [|d t]; [discriminate|].
    change (String c w ++ rest) with (String c (w ++ rest)) in Ht.
    simpl in Ht. injection Ht as Hc Ht.
    destruct (IH t rest Ht) as (p & r & -> & Hp).
    exists (String d p), r. simpl. now rewrite Hc, Hp.
Qed.

Lemma prefix_split (w : string) :
  forall t, String.prefix w t = true -> exists rest, t = w ++ rest.
Proof.
  induction w as [|c w IH]; intros t Ht; [now exists t|].
  destruct t as [|d t]; [discriminate|]. simpl in Ht.
  destruct (ascii_dec c d) as [->|]; [|discriminate].
  destruct (IH t Ht) as [rest ->]. now exists rest.
Qed.

Lemma contains_lower_split (w s : string) :
  contains w (lower s) = true ->
  exists p t q, s = p ++ t ++ q /\ lower t = w.
Proof.
  induction s as [|c s IH].
  - simpl. rewrite orb_false_r. intros H.
    destruct w; [|discriminate]. now exists "", "", "".
  - cbn [lower contains]. intros [H | H]%orb_prop.
    + apply prefix_split in H as [rest H].
      change (String (lower_char c) (lower s)) with (lower (String c s)) in H.
      apply lower_app_split in H as (t & q & Hs & Ht).
      exists "", t, q. auto.
    + destruct (IH H) as (p & t & q & -> & Ht).
      now exists (String c p), t, q.
Qed.

(** A string that contains one of the excluded words, in any letter case
    and at any position, is rejected by the company validator. *)
Theorem excluded_word_rejected (s w : string) :
  w ∈ error_vocabulary ->
  contains w (lower s) = true ->
  is_invalid_company s = true.
Proof.
  intros Hw Hc. apply contains_lower_split in Hc as (p & t & q & -> & Ht).
  assert (Hlow : lower t = lower w) by (rewrite <- Ht; now rewrite lower_idem).
  assert (Hsearch : re_search true vocabulary_pattern (p ++ t ++ q) = true).
  { apply search_from_later. intros b.
    apply (rmatch_alt_of true (List.map lit error_vocabulary) (lit w)).
    - apply in_map. now apply list_elem_of_In.
    - exists q. apply rmatch_lit. exists t, q. auto. }
  unfold is_invalid_company. destruct (is_default_input _); [reflexivity|].
  unfold matches_exclude_pattern, exclude_patterns. rewrite existsb_app.
  cbn [existsb]. rewrite Hsearch. now rewrite !orb_true_r.
Qed.

Lemma cls_match_intro (ic : bool) (p : ascii -> bool) (d : ascii) :
  p d = true -> cls_match ic p d = true.
Proof. intros H. unfold cls_match. destruct ic; now rewrite H. Qed.

Lemma rep_match_cons (ic : bool) (p : ascii -> bool) (lo : nat) (hi : option nat)
    (b : bool) (d : ascii) (s : string) (k : bool -> string -> option string) :
  rep_match ic p lo hi b (String d s) k
  = if more_allowed hi && cls_match ic p d then
      match rep_match ic p (Nat.pred lo) (dec_bound hi) false s k with
      | Some rest => Some rest
      | None => if Nat.eqb lo 0 then k b (String d s) else None
      end
    else if Nat.eqb lo 0 then k b (String d s) else None.
Proof. reflexivity. Qed.

(** An unbounded repetition accepts a non-empty run of characters of its
    class that reaches the end of the subject. *)
Lemma rep_match_all (ic : bool) (p : ascii -> bool)
    (k : bool -> string -> option string) :
  is_Some (k false "") ->
  forall s d lo b,
    forallb p (d :: list_ascii_of_string s) = true ->
    (lo <= S (String.length s))%nat ->
    is_Some (rep_match ic p lo None b (String d s) k).
Proof.
  intros Hk. induction s as [|d' s IH]; intros d lo b Hall Hlo;
    cbn [forallb list_ascii_of_string] in Hall;
    apply andb_prop in Hall as [Hd Hrest];
    rewrite rep_match_cons, (cls_match_intro ic p d Hd); cbn [more_allowed andb dec_bound].
  - cbn [rep_match]. replace (Nat.pred lo =? 0)%nat with true
      by (symmetry; apply Nat.eqb_eq; simpl in Hlo; lia).
    destruct (k false "") eqn:Hk'; [eauto | now destruct Hk].
  - destruct (IH d' (Nat.pred lo) false) as [x Hx].
    + exact Hrest.
    + simpl in Hlo |- *. lia.
    + rewrite Hx. eauto.
Qed.

(** A non-empty string made of digits, dots and dashes only is rejected by
    the company validator. *)
Theorem numeric_identifier_rejected (s : string) :
  s <> "" ->
  forallb digit_dot_dash (list_ascii_of_string s) = true ->
  is_invalid_company s = true.
Proof.
  intros Hne Hall.
  assert (Hsearch : re_search true numeric_dots_pattern s = true).
  { apply re_search_anchored. destruct s as [|d s]; [contradiction|].
    cbn [seq_of rmatch]. unfold plus.
    destruct (rep_match_all true digit_dot_dash
                (fun b s' => rmatch true Eol b s'
                               (fun b0 s'0 => rmatch true Eps b0 s'0
                                                (fun _ rest => Some rest))))
      with (s := s) (d := d) (lo := 1%nat) (b := true) as [x Hx].
    - simpl. eauto.
    - exact Hall.
    - lia.
    - exists x. exact Hx. }
  unfold is_invalid_company. destruct (is_default_input _); [reflexivity|].
  unfold matches_exclude_pattern, exclude_patterns. rewrite existsb_app.
  cbn [existsb]. rewrite Hsearch. now rewrite !orb_true_r.
Qed.

(** * Cleaning *)

Lemma append_not_empty (p : string) (c : ascii) (r : string) : p ++ String c r <> "".
Proof. destruct p; discriminate. Qed.

Lemma lstrip_spec (s : string) :
  (exists l, s = l ++ lstrip s /\ all_space l = true)
  /\ (forall c r, lstrip s = String c r -> isspace c = false).
Proof.
  induction s as [|c s [(l & Hl & Hsp) Hhead]]; simpl.
  - split; [now exists "" | discriminate].
  - destruct (isspace c) eqn:Hc.
    + split; [|exact Hhead]. exists (String c l).
      change (String c l ++ lstrip s) with (String c (l ++ lstrip s)).
      rewrite <- Hl. simpl. now rewrite Hc.
    + split; [now exists ""|]. now intros c' r [= <- _].
Qed.

Lemma rstrip_spec (s : string) :
  (exists t, s = rstrip s ++ t /\ all_space t = true)
  /\ (forall p c, rstrip s = p ++ String c "" -> isspace c = false).
Proof.
  induction s as [|c s [(t & Ht & Hsp) Hlast]].
  - split; [now exists ""|]. intros p c H. symmetry in H.
    now apply append_not_empty in H.
  - cbn [rstrip]. destruct (rstrip s) as [|a r] eqn:Hr.
    + change ("" ++ t) with t in Ht. subst t.
      destruct (isspace c) eqn:Hc.
      * split.
        -- exists (String c s). split; [reflexivity|]. simpl. now rewrite Hc.
        -- intros p c' H. symmetry in H. now apply append_not_empty in H.
      * split; [now exists s|].
        intros [|a p] c' H.
        -- now injection H as <-.
        -- change (String a p ++ String c' "") with (String a (p ++ String c' "")) in H.
           injection H as _ H. symmetry in H. now apply append_not_empty in H.
    + split.
      * exists t. split; [|exact Hsp].
        change (String c (String a r) ++ t) with (String c (String a r ++ t)).
        now rewrite <- Ht.
      * intros [|b p] c' H.
        -- discriminate H.
        -- change (String b p ++ String c' "") with (String b (p ++ String c' "")) in H.
           injection H as _ H. now apply (Hlast p).
Qed.

Lemma rstrip_head (s : string) :
  (forall c r, s = String c r -> isspace c = false) ->
  forall c r, rstrip s = String c r -> isspace c = false.
Proof.
  intros Hhead c r. destruct s as [|d s]; [discriminate|].
  cbn [rstrip]. rewrite (Hhead d s eq_refl).
  destruct (rstrip s); intros [= <- _]; now apply (Hhead d s).
Qed.

Lemma lstrip_fixed (r : string) :
  (forall c r', r = String c r' -> isspace c = false) -> lstrip r = r.
Proof. intros H. destruct r as [|c r]; [reflexivity|]. simpl. now rewrite (H c r). Qed.

Lemma rstrip_fixed (r : string) :
  (forall p c, r = p ++ String c "" -> isspace c = false) -> rstrip r = r.
Proof.
  induction r as [|c r IH]; intros H; [reflexivity|].
  cbn [rstrip]. rewrite IH.
  - destruct r; [|reflexivity]. now rewrite (H "" c eq_refl).
  - intros p c' ->. now apply (H (String c p) c').
Qed.

(** Outside the company class [clean_entity] removes whitespace from both
    ends of the string and nothing else: what it returns neither begins nor
    ends with a whitespace character, and cleaning it again gives it back. *)
Theorem clean_entity_trims (c : EntityClass) (s : string) :
  c <> Company ->
  (exists l t, s = l ++ clean_entity c s ++ t
               /\ all_space l = true /\ all_space t = true)
  /\ (forall d r, clean_entity c s = String d r -> isspace d = false)
  /\ (forall p d, clean_entity c s = p ++ String d "" -> isspace d = false)
  /\ clean_entity c (clean_entity c s) = clean_entity c s.
Proof.
  intros Hc.
  assert (Hclean : forall x, clean_entity c x = strip x) by (now destruct c).
  rewrite !Hclean. unfold strip.
  destruct (lstrip_spec s) as [(l & Hl & Hlsp) Hhead].
  destruct (rstrip_spec (lstrip s)) as [(t & Ht & Htsp) Hlast].
  pose proof (rstrip_head (lstrip s) Hhead) as Hhead'.
  split; [|split; [exact Hhead'|split; [exact Hlast|]]].
  - exists l, t. rewrite <- Ht. auto.
  - rewrite (lstrip_fixed _ Hhead'). now apply rstrip_fixed.
Qed.

Lemma ends_with_refl (s : string) : ends_with s s.
Proof. now exists "". Qed.

Lemma ends_with_tail (d : ascii) (s t : string) :
  ends_with s t -> ends_with (String d s) t.
Proof. intros [p ->]. now exists (String d p). Qed.

Lemma ends_with_trans (s t u : string) :
  ends_with s t -> ends_with t u -> ends_with s u.
Proof. intros [p ->] [q ->]. exists (p ++ q). now rewrite append_assoc. Qed.

(** The matcher hands to its continuation what is left of the subject. *)
Lemma rep_match_ends (ic : bool) (p : ascii -> bool)
    (k : bool -> string -> option string) (x : string) :
  forall s lo hi b,
    rep_match ic p lo hi b s k = Some x ->
    exists b' s', ends_with s s' /\ k b' s' = Some x.
Proof.
  induction s as [|d s IH]; intros lo hi b H.
  - simpl in H. destruct (Nat.eqb lo 0); [|discriminate].
    exists b, "". split; [apply ends_with_refl | exact H].
  - rewrite rep_match_cons in H.
    assert (Hstop : (if Nat.eqb lo 0 then k b (String d s) else None) = Some x ->
                    exists b' s', ends_with (String d s) s' /\ k b' s' = Some x).
    { destruct (Nat.eqb lo 0); [|discriminate]. intros Hk.
      exists b, (String d s). split; [apply ends_with_refl | exact Hk]. }
    destruct (more_allowed hi && cls_match ic p d); [|now apply Hstop].
    destruct (rep_match ic p (Nat.pred lo) (dec_bound hi) false s k) as [y|] eqn:Hy;
      [|now apply Hstop].
    injection H as ->. destruct (IH _ _ _ Hy) as (b' & s' & He & Hk).
    exists b', s'. split; [now apply ends_with_tail | exact Hk].
Qed.

Lemma rmatch_ends (ic : bool) (r : regex) :
  forall b s k x,
    rmatch ic r b s k = Some x ->
    exists b' s', ends_with s s' /\ k b' s' = Some x.
Proof.
  induction r as [|c|p| | |r1 IH1 r2 IH2|r1 IH1 r2 IH2|lo hi p];
    intros b s k x H; cbn [rmatch] in H.
  - exists b, s. split; [apply ends_with_refl | exact H].
  - destruct s as [|d s]; [discriminate|].
    destruct (chr_match ic c d); [|discriminate].
    exists false, s. split; [apply ends_with_tail, ends_with_refl | exact H].
  - destruct s as [|d s]; [discriminate|].
    destruct (cls_match ic p d); [|discriminate].
    exists false, s. split; [apply ends_with_tail, ends_with_refl | exact H].
  - destruct b; [|discriminate].
    exists true, s. split; [apply ends_with_refl | exact H].
  - destruct s as [|d [|d' s]]; [| |discriminate].
    + exists b, "". split; [apply ends_with_refl | exact H].
    + destruct (code d =? 10)%N; [|discriminate].
      exists b, (String d ""). split; [apply ends_with_refl | exact H].
  - destruct (IH1 _ _ _ _ H) as (b1 & s1 & E1 & H1).
    destruct (IH2 _ _ _ _ H1) as (b2 & s2 & E2 & H2).
    exists b2, s2. split; [eapply ends_with_trans; eassumption | exact H2].
  - destruct (rmatch ic r1 b s k) as [y|] eqn:Hy.
    + injection H as ->. now apply IH1 in Hy.
    + now apply IH2 in H.
  - now apply rep_match_ends in H.
Qed.

(** A match of [\s+(...)$] begins with a whitespace character and reaches
    the end of the subject, or the line feed that ends it. *)
Lemma legal_suffix_match (b : bool) (s x : string) :
  match_here true legal_suffix_pattern b s = Some x ->
  ends_with s x
  /\ (x = "" \/ x = newline)
  /\ exists d s', s = String d s' /\ isspace d = true.
Proof.
  unfold match_here, legal_suffix_pattern. cbn [seq_of].
  set (alternatives := alt_of _). intros H.
  change (rep_match true isspace 1 None b s
            (fun b1 s1 => rmatch true (Seq alternatives (Seq Eol Eps)) b1 s1
                            (fun _ rest => Some rest)) = Some x) in H.
  assert (Hhead : exists d s', s = String d s' /\ isspace d = true).
  { destruct s as [|d s]; [discriminate H|]. rewrite rep_match_cons in H.
    cbn [more_allowed andb Nat.eqb] in H.
    destruct (cls_match true isspace d) eqn:Hd.
    - rewrite cls_match_isspace in Hd. eauto.
    - discriminate H. }
  apply rep_match_ends in H as (b1 & s1 & E1 & H1).
  change (rmatch true alternatives b1 s1
            (fun b2 s2 => rmatch true (Seq Eol Eps) b2 s2 (fun _ rest => Some rest))
          = Some x) in H1.
  apply rmatch_ends in H1 as (b2 & s2 & E2 & H2).
  cbn [rmatch] in H2.
  assert (Hx : x = s2 /\ (s2 = "" \/ s2 = newline)).
  { destruct s2 as [|d [|d' s2]]; [| |discriminate H2].
    - injection H2 as <-. auto.
    - destruct (code d =? 10)%N eqn:Hd; [|discriminate H2].
      injection H2 as <-. split; [reflexivity|]. right.
      apply N.eqb_eq in Hd. unfold newline, code in *.
      rewrite <- (ascii_N_embedding d), Hd. reflexivity. }
  destruct Hx as [-> Hx]. split; [eapply ends_with_trans; eassumption|]. auto.
Qed.

Lemma sub_from_empty (fuel : nat) (ic : bool) (r : regex) (b : bool) :
  sub_from fuel ic r b "" = "".
Proof.
  destruct fuel as [|fuel]; [reflexivity|]. simpl.
  now destruct (match_here ic r b "").
Qed.

Lemma sub_from_legal_suffix (fuel : nat) :
  forall b s,
    (forall p, s <> p ++ newline) ->
    exists removed,
      s = sub_from fuel true legal_suffix_pattern b s ++ removed
      /\ (removed = "" \/ exists d r, removed = String d r /\ isspace d = true).
Proof.
  induction fuel as [|fuel IH]; intros b s Hend.
  - exists "". simpl. rewrite append_nil_r. auto.
  - cbn [sub_from].
    assert (Hskip : exists removed,
               s = match s with
                   | "" => ""
                   | String c s' =>
                       String c (sub_from fuel true legal_suffix_pattern false s')
                   end ++ removed
               /\ (removed = "" \/ exists d r, removed = String d r /\ isspace d = true)).
    { destruct s as [|c s]; [exists ""; auto|].
      destruct (IH false s) as (removed & Hs & Hrem).
      - intros p ->. now apply (Hend (String c p)).
      - exists removed. split; [|exact Hrem].
        change (String c s = String c (sub_from fuel true legal_suffix_pattern false s
                                         ++ removed)).
        now rewrite <- Hs. }
    destruct (match_here true legal_suffix_pattern b s) as [rest|] eqn:Hm;
      [|exact Hskip].
    apply legal_suffix_match in Hm as ([p Hp] & [-> | ->] & d & s' & Hs & Hd).
    + rewrite Hs. cbn [String.length Nat.ltb Nat.leb]. rewrite sub_from_empty.
      exists (String d s'). split; [reflexivity|]. right. eauto.
    + exfalso. now apply (Hend p).
Qed.

(** The company class cleans by cutting: the cleaned name is a prefix of
    the trimmed input, and what is cut off is nothing at all or begins with
    a whitespace character. *)
Theorem company_clean_cuts_suffix (s : string) :
  exists removed,
    strip s = clean_entity Company s ++ removed
    /\ (removed = "" \/ exists d r, removed = String d r /\ isspace d = true).
Proof.
  unfold clean_entity, re_sub_delete. apply sub_from_legal_suffix.
  intros p Hp. unfold strip in Hp.
  destruct (rstrip_spec (lstrip s)) as [_ Hlast].
  specialize (Hlast p _ Hp). discriminate Hlast.
Qed.

(** * The review tool *)

(** What one round of questions can do to the object. *)
Lemma ask_cases (entity : string) (st : Normalizer) :
  forall n answers st' rest,
    (length answers <= n)%nat ->
    ask entity st answers = Some (st', rest) ->
    st' = st
    \/ st' = add_standardized_entity entity st
    \/ exists canonical, st' = approve_mapping entity canonical st.
Proof.
  induction n as [|n IH]; intros answers st' rest Hlen H.
  - destruct answers; [discriminate H | simpl in Hlen; lia].
  - destruct answers as [|answer answers]; [discriminate H|].
    cbn [ask] in H. simpl in Hlen.
    destruct (String.eqb (lower answer) "a"); [injection H as <- _; eauto|].
    destruct (String.eqb (lower answer) "r"); [injection H as <- _; eauto|].
    destruct (String.eqb (lower answer) "c").
    + destruct answers as [|custom answers]; [discriminate H|].
      simpl in Hlen. destruct (String.eqb custom "").
      * apply (IH answers st' rest); [lia | exact H].
      * injection H as <- _. eauto.
    + destruct (String.eqb (lower answer) "s"); [injection H as <- _; eauto|].
      apply (IH answers st' rest); [lia | exact H].
Qed.

Lemma review_entries_raises (used : nat) (entries : list (string * Review))
    (st : Normalizer) (answers : list string) :
  size (pending_review st) <> used ->
  review_entries used entries st answers = (st, Raised RuntimeError).
Proof.
  intros Hne. apply Nat.eqb_neq in Hne.
  destruct entries as [|[entity info] rest]; simpl; now rewrite Hne.
Qed.

Lemma approve_shrinks_pending (entity : string) (canonical : option string)
    (st : Normalizer) :
  is_Some (pending_review st !! entity) ->
  size (pending_review (approve_mapping entity canonical st))
  <> size (pending_review st).
Proof.
  intros Hin. pose proof (map_size_ne_0_lookup_2 _ _ Hin) as Hpos.
  unfold approve_mapping. destruct Hin as [r Hr]. rewrite Hr. simpl.
  rewrite map_size_delete_Some by eauto. lia.
Qed.

(** The loop can only run to its end when no answer approved anything. *)
Lemma review_entries_completed (used : nat) (entries : list (string * Review)) :
  forall st answers st',
    (forall entity info, (entity, info) ∈ entries ->
                         is_Some (pending_review st !! entity)) ->
    used = size (pending_review st) ->
    review_entries used entries st answers = (st', Completed) ->
    mappings st' = mappings st /\ pending_review st' = pending_review st.
Proof.
  induction entries as [|[entity info] entries IH]; intros st answers st' Hin Hused H.
  - simpl in H. rewrite Hused, Nat.eqb_refl in H. simpl in H.
    now injection H as <-.
  - cbn [review_entries] in H. rewrite Hused, Nat.eqb_refl in H. cbn [negb] in H.
    destruct (ask entity st answers) as [[st1 answers1]|] eqn:Hask; [|discriminate H].
    assert (Hkeep : mappings st1 = mappings st
                    /\ pending_review st1 = pending_review st ->
                    mappings st' = mappings st
                    /\ pending_review st' = pending_review st).
    { intros [Hm Hp]. destruct (IH st1 answers1 st') as [Hm' Hp'].
      - intros e i Hei. rewrite Hp. apply (Hin e i). now right.
      - now rewrite Hp.
      - rewrite Hused. exact H.
      - split; congruence. }
    destruct (ask_cases entity st (length answers) answers st1 answers1
                (Nat.le_refl _) Hask) as [-> | [-> | [canonical ->]]].
    + now apply Hkeep.
    + now apply Hkeep.
    + exfalso. rewrite review_entries_raises in H; [discriminate H|].
      apply approve_shrinks_pending. apply (Hin entity info). left.
Qed.

Section ReviewFacts.

Variable set_iter : gset string -> list string.
Variable dict_items : gmap string Review -> list (string * Review).
Variable json_chunks : gmap string string -> list string -> list string.

(** Whatever the order, the loop visits the entries of the dict. *)
Hypothesis dict_items_perm :
  forall m : gmap string Review, dict_items m ≡ₚ map_to_list m.

Local Abbreviation review_normalizer :=
  (review_normalizer set_iter dict_items json_chunks).

(** [review_normalizer] iterates over the dict of pending reviews while
    [approve_mapping] deletes from that same dict.  Whenever the call
    returns normally, no suggestion was accepted and no custom mapping was
    entered: the mapping table and the pending reviews are what they were
    before the call. *)
Theorem review_returns_only_without_approval (st st' : Normalizer)
    (answers : list string) (w w' : World) :
  review_normalizer st answers w = (st', w', Completed) ->
  mappings st' = mappings st /\ pending_review st' = pending_review st.
Proof.
  unfold review_normalizer. case_bool_decide as Hempty.
  - now intros [= <- _].
  - destruct (review_entries _ _ st answers) as [st1 [|e]] eqn:Hloop;
      [|discriminate].
    intros [= <- _]. apply (review_entries_completed _ _ _ _ _ ) with (3 := Hloop).
    + intros entity info Hin. rewrite dict_items_perm in Hin.
      apply elem_of_map_to_list in Hin. eauto.
    + reflexivity.
Qed.

(** Accepting the first suggestion makes the review tool fail: the mapping
    is approved in memory, the next step of the loop raises [RuntimeError]
    because the dict has shrunk, and [save_mappings] is never reached, so
    the file system is left as it was. *)
Theorem review_accept_raises (st : Normalizer) (answer : string)
    (answers : list string) (w : World) :
  pending_review st <> ∅ ->
  lower answer = "a" ->
  exists entity review,
    pending_review st !! entity = Some review
    /\ review_normalizer st (answer :: answers) w
       = (approve_mapping entity None st, w, Raised RuntimeError).
Proof.
  intros Hne Ha. unfold review_normalizer.
  rewrite bool_decide_eq_false_2 by exact Hne.
  destruct (dict_items (pending_review st)) as [|[entity review] rest] eqn:Hitems.
  - exfalso. apply Hne, map_to_list_empty_iff.
    apply Permutation_nil_r. now rewrite <- dict_items_perm, Hitems.
  - assert (Hin : pending_review st !! entity = Some review).
    { apply elem_of_map_to_list. rewrite <- dict_items_perm, Hitems. left. }
    exists entity, review. split; [exact Hin|].
    cbn [review_entries ask]. rewrite Nat.eqb_refl, Ha, String.eqb_refl. cbn [negb].
    rewrite review_entries_raises; [reflexivity|].
    apply approve_shrinks_pending. eauto.
Qed.

End ReviewFacts.

(** * Further examples *)

Lemma elements_perm (X : gset string) : elements X ≡ₚ elements X.
Proof. reflexivity. Qed.

Lemma backwards_perm (X : gset string) : backwards X ≡ₚ elements X.
Proof. unfold backwards. apply reverse_Permutation. Qed.

Lemma map_to_list_perm (m : gmap string Review) : map_to_list m ≡ₚ map_to_list m.
Proof. reflexivity. Qed.

Lemma find_best_match_upper_bound_witness :
  "Acme Co" ∈ standardized_entities acme_mapped_store
  /\ (similarity Difflib.ratio "Acme" "Acme Co"
      <= snd (find_best_match Difflib.ratio elements acme_mapped_store "Acme"))%Q
  /\ (0 <= snd (find_best_match Difflib.ratio elements (store Category ∅ ∅ ∅) "Acme"))%Q.
Proof.
  assert (Hin : "Acme Co" ∈ standardized_entities acme_mapped_store)
    by (simpl; apply elem_of_union_l, elem_of_singleton; reflexivity).
  split; [exact Hin|]. split.
  - apply (find_best_match_upper_bound Difflib.ratio elements elements_perm
             acme_mapped_store "Acme").
    left. exact Hin.
  - apply (find_best_match_upper_bound Difflib.ratio elements elements_perm
             (store Category ∅ ∅ ∅) "Acme").
Defined.


Lemma acme_store_pending_unmapped : pending_unmapped acme_store.
Proof. intros k [r Hr]. simpl in Hr. now rewrite lookup_empty in Hr. Qed.

Lemma pending_reviews_stay_unmapped_witness :
  pending_unmapped acme_store
  /\ pending_unmapped (run Difflib.ratio elements session acme_store).
Proof.
  split; [exact acme_store_pending_unmapped|].
  apply (pending_reviews_stay_unmapped Difflib.ratio elements session).
  exact acme_store_pending_unmapped.
Defined.

Lemma acme_store_pending_in_band : pending_in_band acme_store.
Proof. intros k r Hr. simpl in Hr. now rewrite lookup_empty in Hr. Qed.

Lemma pending_scores_stay_in_band_witness :
  pending_in_band acme_store
  /\ pending_in_band (run Difflib.ratio elements session acme_store).
Proof.
  split; [exact acme_store_pending_in_band|].
  apply (pending_scores_stay_in_band Difflib.ratio elements session).
  exact acme_store_pending_in_band.
Defined.

Lemma approved_mapping_is_used_witness :
  pending_review pending_store !! "Acme" = Some (mkReview "Acme Co" (8 # 11))
  /\ normalize Difflib.ratio elements
       (approve_mapping "Acme" None pending_store) " Acme "
     = ("Acme Co", approve_mapping "Acme" None pending_store).
Proof.
  split; [reflexivity|].
  apply (approved_mapping_is_used Difflib.ratio elements pending_store "Acme"
           " Acme " (mkReview "Acme Co" (8 # 11)) None);
    reflexivity.
Defined.

Lemma rejected_variant_is_canonical_witness :
  pending_review pending_store !! "Acme" = Some (mkReview "Acme Co" (8 # 11))
  /\ normalize Difflib.ratio elements
       (add_standardized_entity "Acme" pending_store) " Acme "
     = ("Acme", add_standardized_entity "Acme" pending_store).
Proof.
  split; [reflexivity|].
  apply (rejected_variant_is_canonical Difflib.ratio elements pending_store "Acme"
           " Acme " (mkReview "Acme Co" (8 # 11)));
    reflexivity.
Defined.

Lemma normalize_returns_canonical_witness :
  values_standardized acme_store
  /\ (fst (normalize Difflib.ratio elements acme_store "Acme")
      = get_default_entity (kind acme_store)
      \/ fst (normalize Difflib.ratio elements acme_store "Acme")
         ∈ standardized_entities (snd (normalize Difflib.ratio elements acme_store "Acme"))).
Proof.
  split; [exact acme_store_values_standardized|].
  apply (normalize_returns_canonical Difflib.ratio elements elements_perm
           acme_store "Acme" acme_store_values_standardized).
  reflexivity.
Defined.

Lemma first_entity_becomes_canonical_witness :
  mappings (store Category ∅ ∅ ∅) = ∅
  /\ normalize Difflib.ratio elements (store Category ∅ ∅ ∅) "Zenith"
     = (clean_entity Category "Zenith",
        add_standardized_entity (clean_entity Category "Zenith") (store Category ∅ ∅ ∅)).
Proof.
  split; [reflexivity|].
  apply (first_entity_becomes_canonical Difflib.ratio elements elements_perm
           (store Category ∅ ∅ ∅) "Zenith"); reflexivity.
Defined.

Lemma normalize_email_data_fields_witness :
  sample_email !! "company_name" = Some ""
  /\ fst (normalize_email_data Difflib.ratio elements fresh_normalizers sample_email)
       !! "company_name" = sample_email !! "company_name"
  /\ company_normalizer
       (snd (normalize_email_data Difflib.ratio elements fresh_normalizers sample_email))
     = company_normalizer fresh_normalizers.
Proof.
  assert (Hempty : sample_email !! "company_name" = Some "") by reflexivity.
  split; [exact Hempty|].
  destruct (normalize_email_data_fields Difflib.ratio elements fresh_normalizers
              sample_email) as (_ & _ & [Hcompany _] & _).
  apply Hcompany. right. exact Hempty.
Defined.

Lemma changes_made_iff_new_mapping_witness :
  changes_made Difflib.ratio elements blusky_store
    {[ "Blusky Restoration Contractors LLC" ]} = true
  /\ exists k, mappings blusky_store !! k = None
               /\ is_Some (mappings (normalize_all Difflib.ratio elements blusky_store
                                       {[ "Blusky Restoration Contractors LLC" ]}) !! k).
Proof.
  assert (H : changes_made Difflib.ratio elements blusky_store
                {[ "Blusky Restoration Contractors LLC" ]} = true)
    by (vm_compute; reflexivity).
  split; [exact H|].
  apply (changes_made_iff_new_mapping Difflib.ratio elements blusky_store
           {[ "Blusky Restoration Contractors LLC" ]}).
  exact H.
Defined.

Lemma get_all_standardized_sorted_witness :
  (forall X : gset string, backwards X ≡ₚ elements X)
  /\ get_all_standardized elements acme_mapped_store
     = get_all_standardized backwards acme_mapped_store.
Proof.
  split; [exact backwards_perm|].
  apply (get_all_standardized_sorted elements backwards acme_mapped_store
           elements_perm backwards_perm).
Defined.


Lemma accepted_company_is_short_witness :
  is_invalid_company "Acme Holdings" = false
  /\ (String.length "Acme Holdings" <= 50)%nat.
Proof.
  assert (H : is_invalid_company "Acme Holdings" = false) by (vm_compute; reflexivity).
  split; [exact H|].
  apply (accepted_company_is_short "Acme Holdings" H).
Defined.

Lemma index_validator_agrees_witness :
  is_invalid_company "Acme Holdings" = false
  /\ index_company_is_valid "Acme Holdings" = true.
Proof.
  assert (H : is_invalid_company "Acme Holdings" = false) by (vm_compute; reflexivity).
  split; [exact H|].
  exact (proj1 (index_validator_agrees "Acme Holdings") H).
Defined.

Lemma index_validator_accepts_known_witness :
  "Comtel Systems Technology" ∈ known_companies
  /\ index_company_is_valid "Comtel Systems Technology" = true.
Proof.
  assert (H : "Comtel Systems Technology" ∈ known_companies)
    by (unfold known_companies; repeat constructor).
  split; [exact H|].
  apply (index_validator_accepts_known "Comtel Systems Technology" H).
Defined.

Lemma excluded_word_rejected_witness :
  "error" ∈ error_vocabulary
  /\ contains "error" (lower "Nightly SQL ERROR report") = true
  /\ is_invalid_company "Nightly SQL ERROR report" = true.
Proof.
  assert (Hw : "error" ∈ error_vocabulary)
    by (unfold error_vocabulary; repeat constructor).
  split; [exact Hw|]. split; [reflexivity|].
  apply (excluded_word_rejected "Nightly SQL ERROR report" "error" Hw).
  reflexivity.
Defined.

Lemma numeric_identifier_rejected_witness :
  "1.2-3" <> ""
  /\ is_invalid_company "1.2-3" = true.
Proof.
  split; [discriminate|].
  apply (numeric_identifier_rejected "1.2-3"); [discriminate | reflexivity].
Defined.

Lemma clean_entity_trims_witness :
  Category <> Company
  /\ clean_entity Category (clean_entity Category "  Acme Co  ")
     = clean_entity Category "  Acme Co  ".
Proof.
  split; [discriminate|].
  apply (clean_entity_trims Category "  Acme Co  "). discriminate.
Defined.

Lemma review_returns_only_without_approval_witness :
  review_normalizer elements map_to_list json_chunks_of_empty
    pending_only_store ["x"; "S"] no_file
  = (pending_only_store,
     fst (save_mappings elements json_chunks_of_empty pending_only_store no_file),
     Completed)
  /\ mappings pending_only_store = mappings pending_only_store
  /\ pending_review pending_only_store = pending_review pending_only_store.
Proof.
  assert (H : review_normalizer elements map_to_list json_chunks_of_empty
                pending_only_store ["x"; "S"] no_file
              = (pending_only_store,
                 fst (save_mappings elements json_chunks_of_empty
                        pending_only_store no_file),
                 Completed)) by (vm_compute; reflexivity).
  split; [exact H|].
  apply (review_returns_only_without_approval elements map_to_list
           json_chunks_of_empty map_to_list_perm _ _ _ _ _ H).
Defined.

Lemma pending_only_store_not_empty : pending_review pending_only_store <> ∅.
Proof.
  intros H. assert (Hl : pending_review pending_only_store !! "Acme" = None)
    by (rewrite H; apply lookup_empty).
  discriminate Hl.
Qed.

Lemma review_accept_raises_witness :
  lower "A" = "a"
  /\ exists entity review,
       pending_review pending_only_store !! entity = Some review
       /\ review_normalizer elements map_to_list json_chunks_of_empty
            pending_only_store ["A"] no_file
          = (approve_mapping entity None pending_only_store, no_file,
             Raised RuntimeError).
Proof.
  split; [reflexivity|].
  apply (review_accept_raises elements map_to_list json_chunks_of_empty
           map_to_list_perm pending_only_store "A" [] no_file
           pending_only_store_not_empty).
  reflexivity.
Defined.
